(** * Media timeline engine: cut profiles, silence detection, montage,
      arrangement rendering and subtitle timing

    A shallow embedding of [Backend/services/video_processing.py] and
    [Backend/services/subtitles.py].

    Conventions of the embedding:
    - Python numbers that denote seconds are exact rationals ([Q]); a Python
      [int] is injected with [inject_Z].  Float rounding is not modelled,
      except where a statement names particular float values: there the
      computation is also run on binary64 floats.
    - A Python [dict] with string keys is a [gmap string _]; [d.get(k)] is a
      lookup with a default.
    - The media library (moviepy) is not part of the repository.  Its clips
      are symbolic terms recording which calls built them; the effects the
      services have on the outside world (opening, writing, closing) are
      logged as events, in order, by a small state-and-exception monad.  The
      only attribute the services read back from a clip, its [duration], is a
      parameter of the functions that read it. *)

From Stdlib Require Import ZArith QArith Qround Qabs Lqa Lia String Ascii List Sorted DecimalString.
From Stdlib Require Import Uint63 PrimFloat.
From stdpp Require Import gmap strings list.

Local Open Scope Z_scope.
Set Warnings "-register-all,-inexact-float".

(** ** Python values and exceptions *)

Module Py.

(** The JSON scalars that reach the services as [Any]. *)
Inductive pyval : Type :=
| PNone
| PBool (b : bool)
| PInt (n : Z)
| PFloat (x : Q)
| PStr (s : string).

Inductive exn : Type :=
| ValueError (msg : string)
| TypeError
| IndexError
| ZeroDivisionError.

(** [d.get(k)] and [d.get(k, dflt)]. *)
Definition get (d : gmap string pyval) (k : string) : pyval :=
  default PNone (d !! k).

Definition get_or (d : gmap string pyval) (k : string) (dflt : pyval) : pyval :=
  default dflt (d !! k).

(** [v is not None]. *)
Definition is_not_None (v : pyval) : bool :=
  match v with PNone => false | _ => true end.

(** Truth value of [v] in [if v:]. *)
Definition truthy (v : pyval) : bool :=
  match v with
  | PNone => false
  | PBool b => b
  | PInt n => negb (n =? 0)
  | PFloat x => negb (Qeq_bool x 0)
  | PStr s => negb (String.eqb s "")
  end.

(** The number a value stands for in arithmetic and comparisons
    ([bool] is a subclass of [int]); [None] for the values on which
    Python raises [TypeError]. *)
Definition num (v : pyval) : option Q :=
  match v with
  | PBool b => Some (if b then 1%Q else 0%Q)
  | PInt n => Some (inject_Z n)
  | PFloat x => Some x
  | PNone | PStr _ => None
  end.

(** [int(x)]: truncation towards zero. *)
Definition int (x : Q) : Z := Z.quot (Qnum x) (Zpos (Qden x)).

(** [os.path.basename] on POSIX paths: what follows the last slash. *)
Fixpoint basename_from (cur p : string) : string :=
  match p with
  | EmptyString => cur
  | String c p' =>
      if Ascii.eqb c "/" then basename_from p' p' else basename_from cur p'
  end.

Definition basename (p : string) : string := basename_from p p.

(** [range(0, stop, step)]: raises on a zero step, is empty for a
    negative one. *)
Definition range (stop step : Z) : exn + list Z :=
  if step =? 0 then inl (ValueError "range() arg 3 must not be zero")
  else if step <? 0 then inr []
  else inr (map (fun k => Z.of_nat k * step)
                (seq 0 (Z.to_nat ((stop + step - 1) / step)))).

(** The line feed, which has no escape in a string literal here. *)
Definition LF : ascii := ascii_of_nat 10.
Definition nl : string := String LF EmptyString.

(** [str.isspace] on the ASCII range. *)
Definition isspace (c : ascii) : bool :=
  let n := nat_of_ascii c in
  ((9 <=? n) && (n <=? 13) || (28 <=? n) && (n <=? 32))%nat.

Fixpoint lstrip (s : string) : string :=
  match s with
  | EmptyString => EmptyString
  | String c s' => if isspace c then lstrip s' else s
  end.

Fixpoint rstrip (s : string) : string :=
  match s with
  | EmptyString => EmptyString
  | String c s' =>
      match rstrip s' with
      | EmptyString => if isspace c then EmptyString else String c EmptyString
      | r => String c r
      end
  end.

(** [s.strip()]. *)
Definition strip (s : string) : string := rstrip (lstrip s).

(** [s.split(sep)] for a non-empty [sep]: [cur] holds, reversed, the
    characters of the piece being read, [skip] the characters of a matched
    separator that remain to be passed over. *)
Fixpoint split_from (sep s : string) (skip : nat) (cur : list ascii) : list string :=
  match s with
  | EmptyString => [string_of_list_ascii (rev cur)]
  | String c s' =>
      match skip with
      | S k => split_from sep s' k cur
      | O =>
          if String.prefix sep s
          then string_of_list_ascii (rev cur)
                 :: split_from sep s' (String.length sep - 1) []
          else split_from sep s' 0 (c :: cur)
      end
  end.

Definition split (s sep : string) : list string := split_from sep s 0 [].

(** [s.split()]: the maximal runs of non-space characters. *)
Fixpoint words_from (s : string) (cur : list ascii) : list string :=
  let flush (rest : list string) :=
    match cur with
    | [] => rest
    | _ :: _ => string_of_list_ascii (rev cur) :: rest
    end in
  match s with
  | EmptyString => flush []
  | String c s' =>
      if isspace c then flush (words_from s' []) else words_from s' (c :: cur)
  end.

Definition split_whitespace (s : string) : list string := words_from s [].

(** [max(a, b)]: the second argument only when it is strictly greater. *)
Definition max (a b : Q) : Q := if Qle_bool b a then a else b.

(** [str(n)] for [n >= 0] and the format spec [{n:0w}]. *)
Definition str (n : Z) : string := NilZero.string_of_uint (N.to_uint (Z.to_N n)).

Definition zero_padded (w : nat) (n : Z) : string :=
  let digits := str n in
  string_of_list_ascii (replicate (w - String.length digits) "0"%char) +:+ digits.

End Py.

Import Py.

(** ** The media library, symbolically *)

Module Codec.

Inductive method : Type := Chain | Compose.

(** A clip is the history of the calls that produced it. *)
Inductive clip : Type :=
| VideoFileClip (path : string)
| subclip (c : clip) (t_start t_end : pyval)
| fl_image_boost_colors (c : clip)
| speedx (c : clip) (factor : Q)
| concatenate_videoclips (clips : list clip) (m : method) (padding : Q).

Inductive event : Type :=
| Opened (path : string)
| Wrote (c : clip) (filename : string)
| Closed (c : clip).

(** State (the event log, oldest first) and exceptions. *)
Definition M (A : Type) : Type := list event -> (exn + A) * list event.

Definition ret {A} (a : A) : M A := fun log => (inr a, log).

Definition bind {A B} (c : M A) (k : A -> M B) : M B :=
  fun log =>
    match c log with
    | (inl e, log') => (inl e, log')
    | (inr a, log') => k a log'
    end.

Definition raise {A} (e : exn) : M A := fun log => (inl e, log).

Definition emit (ev : event) : M unit := fun log => (inr tt, log ++ [ev]).

(** Lift a pure computation that may raise. *)
Definition lift {A} (r : exn + A) : M A := fun log => (r, log).

Definition open (path : string) : M clip :=
  bind (emit (Opened path)) (fun _ => ret (VideoFileClip path)).

Definition write_videofile (c : clip) (filename : string) : M unit :=
  emit (Wrote c filename).

Definition close (c : clip) : M unit := emit (Closed c).

(** [for x in xs: body x]. *)
Fixpoint for_each {A} (xs : list A) (body : A -> M unit) : M unit :=
  match xs with
  | [] => ret tt
  | x :: xs' => bind (body x) (fun _ => for_each xs' body)
  end.

(** [[f x for x in xs]], left to right. *)
Fixpoint map_M {A B} (f : A -> M B) (xs : list A) : M (list B) :=
  match xs with
  | [] => ret []
  | x :: xs' =>
      bind (f x) (fun y => bind (map_M f xs') (fun ys => ret (y :: ys)))
  end.

End Codec.

Import Codec.

Declare Scope py_scope.
Delimit Scope py_scope with py.
Notation "'let*' x ':=' c1 'in' c2" := (bind c1 (fun x => c2))
  (at level 10, x name, c1 at level 100, c2 at level 200) : py_scope.

(** ** services/video_processing.py *)

Module VideoProcessing.

Local Open Scope py_scope.

(** *** [cut_video_with_profile] *)

(** Lines 26-33: the loop that builds [segments].  [source] is the opened
    video. *)
Definition keep_segment (source : clip) (segments : list clip)
    (segment : gmap string pyval) : list clip :=
  let start_time := get segment "start_time" in
  let end_time := get segment "end_time" in
  if is_not_None start_time && is_not_None end_time
  then segments ++ [subclip source start_time end_time]
  else segments.

Definition profile_segments (source : clip)
    (cut_profile : gmap string (list (gmap string pyval))) : list clip :=
  fold_left (keep_segment source) (default [] (cut_profile !! "segments")) [].

Definition cut_video_with_profile (video_path : string)
    (cut_profile : gmap string (list (gmap string pyval))) : M string :=
  let output_filename := "outputs/cut_" +:+ basename video_path in
  let* video := open video_path in
  let segments := profile_segments video cut_profile in
  let* _ :=
    match segments with
    | _ :: _ =>
        let final_clip := concatenate_videoclips segments Chain 0 in
        let* _ := write_videofile final_clip output_filename in
        close final_clip
    | [] => raise (ValueError "No valid segments found in cut profile")
    end in
  let* _ := close video in
  ret output_filename.

(** *** [remove_silence], lines 88-113: the scan for non-silent spans *)

(** What the scan reads from the decoded audio: [len(audio_array)],
    [audio.fps], [audio.duration], and for the chunk that starts at sample
    [i] its level [20 * log10(rms(chunk) + eps)] in dB. *)
Record audio : Type := {
  audio_array_len : Z;
  audio_fps : Z;
  audio_duration : Q;
  chunk_db : Z -> Q
}.

(** The three variables the loop updates. *)
Record scan : Type := {
  non_silent_segments : list (Q * Q);
  is_silent : bool;
  segment_start : Q
}.

Definition Qltb (x y : Q) : bool := negb (Qle_bool y x).

(** One iteration of the loop body, at sample index [i]. *)
Definition scan_chunk (a : audio) (min_silence_duration silence_threshold : Q)
    (step : Z) (st : scan) (i : Z) : scan :=
  let n := audio_array_len a in
  let chunk_len := Z.max 0 (Z.min (i + step) n - Z.min i n) in
  if chunk_len =? 0 then st
  else
    let chunk_amplitude := chunk_db a i in
    let current_time := (inject_Z i / inject_Z (audio_fps a))%Q in
    if is_silent st && Qltb silence_threshold chunk_amplitude then
      {| non_silent_segments := non_silent_segments st;
         is_silent := false;
         segment_start := current_time |}
    else if negb (is_silent st) && Qle_bool chunk_amplitude silence_threshold then
      {| non_silent_segments :=
           if Qle_bool min_silence_duration (current_time - segment_start st)%Q
           then non_silent_segments st ++ [(segment_start st, current_time)]
           else non_silent_segments st;
         is_silent := true;
         segment_start := segment_start st |}
    else st.

Definition scan_init : scan :=
  {| non_silent_segments := []; is_silent := true; segment_start := 0%Q |}.

(** The value of [non_silent_segments] after line 113. *)
Definition detect_non_silent (a : audio)
    (min_silence_duration silence_threshold : Q) : exn + list (Q * Q) :=
  let step := int (inject_Z (audio_fps a) * (1 # 10))%Q in
  match range (audio_array_len a) step with
  | inl e => inl e
  | inr indices =>
      let st := fold_left (scan_chunk a min_silence_duration silence_threshold step)
                          indices scan_init in
      inr (if is_silent st then non_silent_segments st
           else non_silent_segments st ++ [(segment_start st, audio_duration a)])
  end.

(** *** [create_satisfy_montage] *)

Section Montage.

(** [clip.duration], as the media library reports it. *)
Variable duration : clip -> Q.

(** Lines 160-175: one turn of the loading loop. *)
Definition load_montage_clip (path : string) : M clip :=
  let* clip := open path in
  let clip := fl_image_boost_colors clip in
  let clip := speedx clip (5 # 4) in
  ret clip.

(** Lines 188-200.  Dividing by a zero duration raises. *)
Definition extend_to_target (final_clip : clip) (target_duration : Z)
    (crossfade_duration : Q) : exn + clip :=
  let current_duration := duration final_clip in
  if Qltb current_duration (inject_Z target_duration) then
    if Qeq_bool current_duration 0 then inl ZeroDivisionError
    else
      let repetitions := Qceiling (inject_Z target_duration / current_duration) in
      let extended_clips := replicate (Z.to_nat repetitions) final_clip in
      let final_clip :=
        concatenate_videoclips extended_clips Compose (- crossfade_duration) in
      inr (subclip final_clip (PInt 0) (PInt target_duration))
  else inr final_clip.

Definition create_satisfy_montage (intro_path : string) (clip_paths : list string)
    (target_duration : Z) (crossfade_duration : Q) : M string :=
  let output_filename := "outputs/satisfy_montage_" +:+ basename intro_path in
  let* intro_clip := open intro_path in
  let* loaded := map_M load_montage_clip clip_paths in
  let clips := intro_clip :: loaded in
  let final_clip := concatenate_videoclips clips Compose (- crossfade_duration) in
  let* final_clip :=
    lift (extend_to_target final_clip target_duration crossfade_duration) in
  let* _ := write_videofile final_clip output_filename in
  let* _ := for_each clips close in
  let* _ := close final_clip in
  ret output_filename.

End Montage.

(** *** [render_final_video] *)

(** [clips[v]] for an index value [v]. *)
Definition list_index (clips : list clip) (v : pyval) : exn + clip :=
  let at_Z (n : Z) :=
    let len := Z.of_nat (length clips) in
    let k := if n <? 0 then n + len else n in
    if (0 <=? k) && (k <? len)
    then match clips !! Z.to_nat k with Some c => inr c | None => inl IndexError end
    else inl IndexError in
  match v with
  | PInt n => at_Z n
  | PBool b => at_Z (if b then 1 else 0)
  | PNone | PFloat _ | PStr _ => inl TypeError
  end.

(** Lines 250-258: one turn of the arrangement loop. *)
Definition arrange_item (clips arranged_clips : list clip)
    (item : gmap string pyval) : exn + list clip :=
  let clip_index := get item "clip_index" in
  let start_time := get_or item "start_time" (PInt 0) in
  let end_time := get item "end_time" in
  match num clip_index with
  | None => inl TypeError
  | Some x =>
      if Qle_bool 0 x && Qltb x (inject_Z (Z.of_nat (length clips))) then
        match list_index clips clip_index with
        | inl e => inl e
        | inr c =>
            if truthy end_time
            then inr (arranged_clips ++ [subclip c start_time end_time])
            else inr (arranged_clips ++ [subclip c start_time PNone])
        end
      else inr arranged_clips
  end.

Fixpoint arrange (clips arranged_clips : list clip)
    (sequence : list (gmap string pyval)) : exn + list clip :=
  match sequence with
  | [] => inr arranged_clips
  | item :: rest =>
      match arrange_item clips arranged_clips item with
      | inl e => inl e
      | inr arranged_clips' => arrange clips arranged_clips' rest
      end
  end.

(** [if path:] for an [Optional[str]]. *)
Definition path_given (path : option string) : option string :=
  match path with
  | Some p => if String.eqb p "" then None else Some p
  | None => None
  end.

Definition render_final_video (clip_paths : list string)
    (arrangement : option (gmap string (list (gmap string pyval))))
    (intro_path outro_path : option string) : M string :=
  let* first_path :=
    lift (match clip_paths with [] => inl IndexError | p :: _ => inr p end) in
  let output_filename := "outputs/final_render_" +:+ basename first_path in
  let* clips := map_M open clip_paths in
  let* clips :=
    match path_given intro_path with
    | Some p => let* intro_clip := open p in ret (intro_clip :: clips)
    | None => ret clips
    end in
  let* clips :=
    match path_given outro_path with
    | Some p => let* outro_clip := open p in ret (clips ++ [outro_clip])
    | None => ret clips
    end in
  let* clips :=
    match arrangement with
    | Some arr =>
        if (size arr =? 0)%nat then ret clips
        else
          let* arranged_clips :=
            lift (arrange clips [] (default [] (arr !! "sequence"))) in
          match arranged_clips with
          | _ :: _ => let* _ := for_each clips close in ret arranged_clips
          | [] => ret clips
          end
    | None => ret clips
    end in
  let final_clip := concatenate_videoclips clips Chain 0 in
  let* _ := write_videofile final_clip output_filename in
  let* _ := for_each clips close in
  let* _ := close final_clip in
  ret output_filename.

End VideoProcessing.

(** ** services/subtitles.py *)

Module Subtitles.

(** A caption: the dict with keys [start_time], [end_time] and [text]. *)
Record subtitle : Type := {
  start_time : Q;
  end_time : Q;
  text : string
}.

(** *** [process_plain_text_transcript] *)

Definition words_per_second : Q := 5 # 2.

(** The body of the loop over [lines]; the state is [subtitles] and
    [current_time]. *)
Definition add_line (st : list subtitle * Q) (line : string) : list subtitle * Q :=
  let '(subtitles, current_time) := st in
  let line := strip line in
  if String.eqb line "" then st
  else
    let word_count := length (split_whitespace line) in
    let duration := (inject_Z (Z.of_nat word_count) / words_per_second)%Q in
    let duration := Py.max duration 1 in
    (subtitles ++ [{| start_time := current_time;
                      end_time := (current_time + duration)%Q;
                      text := line |}],
     (current_time + duration)%Q).

Definition transcript_lines (transcript_text : string) : list string :=
  let lines := split (strip transcript_text) (nl +:+ nl) in
  if (length lines <=? 1)%nat then split (strip transcript_text) nl else lines.

Definition process_plain_text_transcript (transcript_text : string) : list subtitle :=
  fst (fold_left add_line (transcript_lines transcript_text) ([], 0%Q)).

(** The same loop in binary64 arithmetic, as Python runs it: [word_count]
    is converted exactly, the division and the additions round to nearest.
    A caption is its start, its end and its text. *)
Definition add_line_binary64 (st : list (float * float * string) * float)
    (line : string) : list (float * float * string) * float :=
  let '(subtitles, current_time) := st in
  let line := strip line in
  if String.eqb line "" then st
  else
    let word_count := length (split_whitespace line) in
    let duration :=
      (PrimFloat.of_uint63 (Uint63.of_Z (Z.of_nat word_count)) / 2.5)%float in
    let duration := if PrimFloat.ltb duration 1%float then 1%float else duration in
    (subtitles ++ [(current_time, (current_time + duration)%float, line)],
     (current_time + duration)%float).

Definition process_plain_text_transcript_binary64 (transcript_text : string)
    : list (float * float * string) :=
  fst (fold_left add_line_binary64 (transcript_lines transcript_text) ([], 0%float)).

(** *** [format_time] and [write_srt] *)

(** Rounding to the nearest integer, ties to even, as [timedelta] rounds
    to whole microseconds. *)
Definition round_half_even (x : Q) : Z :=
  let f := Qfloor x in
  match (x - inject_Z f ?= 1 # 2)%Q with
  | Lt => f
  | Gt => f + 1
  | Eq => if Z.even f then f else f + 1
  end.

(** The normalised fields of a [datetime.timedelta]. *)
Record timedelta : Type := {
  td_days : Z;
  td_seconds : Z;
  td_microseconds : Z
}.

(** [timedelta(seconds=s)]. *)
Definition timedelta_of_seconds (s : Q) : timedelta :=
  let us := round_half_even (s * 1000000)%Q in
  {| td_days := us / 86400000000;
     td_seconds := (us mod 86400000000) / 1000000;
     td_microseconds := us mod 1000000 |}.

Definition format_time (seconds : Q) : string :=
  let td := timedelta_of_seconds seconds in
  let hours := td_seconds td / 3600 in
  let remainder := td_seconds td mod 3600 in
  let minutes := remainder / 60 in
  let seconds := remainder mod 60 in
  let milliseconds := td_microseconds td / 1000 in
  zero_padded 2 hours +:+ ":" +:+ zero_padded 2 minutes +:+ ":"
    +:+ zero_padded 2 seconds +:+ "," +:+ zero_padded 3 milliseconds.

(** The time-range line of an entry. *)
Definition srt_time_line (sub : subtitle) : string :=
  format_time (start_time sub) +:+ " --> " +:+ format_time (end_time sub).

(** The text [write_srt] writes, entries numbered from [i]. *)
Fixpoint srt_entries (i : Z) (subtitles : list subtitle) : string :=
  match subtitles with
  | [] => ""
  | sub :: rest =>
      str i +:+ nl +:+ srt_time_line sub +:+ nl +:+ text sub +:+ nl +:+ nl
        +:+ srt_entries (i + 1) rest
  end.

Definition write_srt (subtitles : list subtitle) : string := srt_entries 1 subtitles.

End Subtitles.

(** ** What the repository leaves to its collaborators *)

Module Collaborator.

(** Modelled from the spec: the durations reported by the media-codec
    collaborator, which is not part of the repository.  A sub-range
    [[start, end)] lasts [end - start] and [[start, end of clip)] lasts the
    rest of the clip (section 4.5); a speed change by [factor] rescales the
    time axis by [1 / factor] and the colour boost leaves it alone (section
    4.3); a join starts every clip [padding] after the end of the one
    before (section 4.4).  [file_duration] gives the length of each source
    file. *)
Fixpoint spec_duration (file_duration : string -> Q) (c : clip) : Q :=
  match c with
  | VideoFileClip path => file_duration path
  | subclip c' t_start t_end =>
      match num t_end with
      | Some e => e - default 0 (num t_start)
      | None => spec_duration file_duration c' - default 0 (num t_start)
      end
  | fl_image_boost_colors c' => spec_duration file_duration c'
  | speedx c' factor => spec_duration file_duration c' / factor
  | concatenate_videoclips clips _ padding =>
      (fix total (cs : list clip) : Q :=
         match cs with
         | [] => 0
         | [c'] => spec_duration file_duration c'
         | c' :: cs' => spec_duration file_duration c' + padding + total cs'
         end) clips
  end%Q.

(** Modelled from the spec: the value of a decimal digit of a format-A
    timestamp (section 4.6); reading timestamps back is left to the subtitle
    library, which is not part of the repository. *)
Definition digit_value (c : ascii) : option Z :=
  let n := nat_of_ascii c in
  if ((48 <=? n) && (n <=? 57))%nat then Some (Z.of_nat n - 48) else None.

(** Modelled from the spec: the number a field of digits denotes. *)
Definition digits_value (ds : list ascii) : option Z :=
  fold_left (fun acc d =>
               match acc, digit_value d with
               | Some v, Some k => Some (10 * v + k)
               | _, _ => None
               end) ds (Some 0).

(** Modelled from the spec: the reader of a format-A timestamp
    [HH:MM:SS,mmm] (section 4.6).  It yields the seconds the twelve
    characters denote. *)
Definition parse_time (s : string) : option Q :=
  match list_ascii_of_string s with
  | [h1; h2; c1; m1; m2; c2; s1; s2; c3; f1; f2; f3] =>
      if Ascii.eqb c1 ":" && Ascii.eqb c2 ":" && Ascii.eqb c3 ","
      then
        match digits_value [h1; h2], digits_value [m1; m2],
              digits_value [s1; s2], digits_value [f1; f2; f3] with
        | Some h, Some m, Some sec, Some ms =>
            Some (inject_Z (h * 3600 + m * 60 + sec) + inject_Z ms / 1000)%Q
        | _, _, _, _ => None
        end
      else None
  | _ => None
  end.

(** Modelled from the spec: the reader of a time-range line
    [start --> end] (section 4.6). *)
Definition parse_time_line (line : string) : option (Q * Q) :=
  match split line " --> " with
  | [a; b] =>
      match parse_time a, parse_time b with
      | Some s, Some e => Some (s, e)
      | _, _ => None
      end
  | _ => None
  end.

End Collaborator.

(** ** The properties the specification states, in its own words *)

Module SpecWords.

(** Section 4.2: a profile segment is valid when
    [0 <= start_time < end_time <= source_duration]. *)
Definition spec_valid_segment (source_duration : Q)
    (segment : gmap string pyval) : bool :=
  match num (get segment "start_time"), num (get segment "end_time") with
  | Some s, Some e =>
      Qle_bool 0 s && VideoProcessing.Qltb s e && Qle_bool e source_duration
  | _, _ => false
  end.

(** Section 4.2: the timeline holds the valid segments, in the order
    given. *)
Definition spec_apply (source : clip) (source_duration : Q)
    (segments : list (gmap string pyval)) : list clip :=
  map (fun segment =>
         subclip source (get segment "start_time") (get segment "end_time"))
      (List.filter (spec_valid_segment source_duration) segments).

(** Section 8: a trace entirely above the threshold for a duration [d]
    gives the one span [[0, d]] when [d >= min_silence_duration], and
    nothing otherwise. *)
Definition spec_loud_spans (d min_silence_duration : Q) : list (Q * Q) :=
  if Qle_bool min_silence_duration d then [(0%Q, d)] else [].

(** Sections 4.4 and 7: the call is rejected with a configuration error
    before any media work starts, so that nothing has been logged. *)
Definition spec_rejected_before_media_work (r : (exn + string) * list event) : Prop :=
  exists msg, r = (inl (ValueError msg), []).

(** Section 7: the call fails. *)
Definition spec_fails (r : (exn + string) * list event) : Prop :=
  exists e, fst r = inl e.

End SpecWords.

(** ** Notions used to state the properties *)

Module Statements.

Import VideoProcessing Subtitles Collaborator.

(** *** Cut profiles *)

(** The test of line 31. *)
Definition bounds_present (segment : gmap string pyval) : bool :=
  is_not_None (get segment "start_time") && is_not_None (get segment "end_time").

Definition as_subclip (source : clip) (segment : gmap string pyval) : clip :=
  subclip source (get segment "start_time") (get segment "end_time").

(** *** The silence scan *)

(** The time of the window that starts at sample [i]. *)
Definition window_time (a : audio) (i : Z) : Q :=
  (inject_Z i / inject_Z (audio_fps a))%Q.

(** Every span has [start < end] and starts no earlier than the end of the
    span before it. *)
Fixpoint spans_ordered (spans : list (Q * Q)) : Prop :=
  match spans with
  | [] => True
  | (s, e) :: rest =>
      (s < e)%Q
      /\ match rest with [] => True | (s', _) :: _ => (e <= s')%Q end
      /\ spans_ordered rest
  end.

(** What the loop maintains once the windows up to sample [b] are done. *)
Definition scan_inv (a : audio) (st : scan) (b : Z) : Prop :=
  spans_ordered (non_silent_segments st)
  /\ Forall (fun p => (snd p <= window_time a b)%Q) (non_silent_segments st)
  /\ (is_silent st = false ->
      Forall (fun p => (snd p <= segment_start st)%Q) (non_silent_segments st)
      /\ (segment_start st <= window_time a b)%Q).

(** *** The montage *)

(** A clip of the montage after the colour boost and the speed-up. *)
Definition with_effects (path : string) : clip :=
  speedx (fl_image_boost_colors (VideoFileClip path)) (5 # 4).

(** The clips of the montage, intro first, and their crossfaded join. *)
Definition montage_clips (intro_path : string) (clip_paths : list string) : list clip :=
  VideoFileClip intro_path :: map with_effects clip_paths.

Definition montage (intro_path : string) (clip_paths : list string)
    (crossfade_duration : Q) : clip :=
  concatenate_videoclips (montage_clips intro_path clip_paths) Compose
    (- crossfade_duration).

(** The log of a run that writes [final_clip]. *)
Definition montage_log (intro_path : string) (clip_paths : list string)
    (final_clip : clip) : list event :=
  Opened intro_path :: map Opened clip_paths
    ++ [Wrote final_clip ("outputs/satisfy_montage_" +:+ basename intro_path)]
    ++ map Closed (montage_clips intro_path clip_paths)
    ++ [Closed final_clip].

(** *** The arrangement renderer *)

(** The base list: the clips, the intro in front and the outro at the end
    when they are given. *)
Definition base_clips (clip_paths : list string)
    (intro_path outro_path : option string) : list clip :=
  let clips := map VideoFileClip clip_paths in
  let clips :=
    match path_given intro_path with
    | Some p => VideoFileClip p :: clips
    | None => clips
    end in
  match path_given outro_path with
  | Some p => clips ++ [VideoFileClip p]
  | None => clips
  end.

Definition opening_events (clip_paths : list string)
    (intro_path outro_path : option string) : list event :=
  map Opened clip_paths
    ++ match path_given intro_path with Some p => [Opened p] | None => [] end
    ++ match path_given outro_path with Some p => [Opened p] | None => [] end.

(** The events of lines 268-276 for the final list [clips]. *)
Definition render_events (clips : list clip) (output_filename : string) : list event :=
  let final_clip := concatenate_videoclips clips Chain 0 in
  [Wrote final_clip output_filename] ++ map Closed clips ++ [Closed final_clip].

(** The entry names a number that is no index of [clips]. *)
Definition index_out_of_range (clips : list clip) (item : gmap string pyval) : Prop :=
  exists x, num (get item "clip_index") = Some x
    /\ ~ (0 <= x /\ x < inject_Z (Z.of_nat (length clips)))%Q.

(** *** Plain-text transcripts *)

(** Section 4.6 in its own words: the transcript is split on blank-line
    boundaries when that gives more than one block and on single newlines
    otherwise. *)
Definition spec_blocks (transcript : string) : list string :=
  let blocks := split (strip transcript) (nl +:+ nl) in
  if (1 <? length blocks)%nat then blocks else split (strip transcript) nl.

(** Section 4.6: [duration = max(word_count / 2.5, 1.0)]. *)
Definition spec_duration_of (line : string) : Q :=
  Py.max (inject_Z (Z.of_nat (length (split_whitespace line))) / (5 # 2))%Q 1%Q.

(** Section 4.6: the captions follow a running clock: each starts where
    the one before ended, the first at [clock]. *)
Fixpoint follows_clock (clock : Q) (captions : list subtitle) : Prop :=
  match captions with
  | [] => True
  | c :: rest => start_time c = clock /\ follows_clock (end_time c) rest
  end.

(** The lines that become captions: stripped, and not empty. *)
Definition caption_texts (lines : list string) : list string :=
  List.filter (fun line => negb (String.eqb line "")) (map strip lines).

(** The captions of [lines], read from [clock] on. *)
Fixpoint captions_from (clock : Q) (lines : list string) : list subtitle :=
  match lines with
  | [] => []
  | line :: rest =>
      if String.eqb (strip line) "" then captions_from clock rest
      else
        let c := {| start_time := clock;
                    end_time := (clock + spec_duration_of (strip line))%Q;
                    text := strip line |} in
        c :: captions_from (end_time c) rest
  end.

(** *** SRT timestamps *)

(** The character of a decimal digit. *)
Definition digit (d : Z) : ascii := ascii_of_nat (48 + Z.to_nat d).

End Statements.

(** ** Inputs used below *)

Module Inputs.

(** A profile segment [{"start_time": s, "end_time": e}]. *)
Definition segment_of (s e : Z) : gmap string pyval :=
  <["start_time" := PInt s]> (<["end_time" := PInt e]> ∅).

(** A profile over a ten-second source: one segment in range, one
    reversed, one running past the end. *)
Definition mixed_segments : list (gmap string pyval) :=
  [segment_of 1 2; segment_of 5 3; segment_of 8 15].

Definition mixed_profile : gmap string (list (gmap string pyval)) :=
  <["segments" := mixed_segments]> ∅.

(** Six windows of a tenth of a second; the second, third and fifth are
    loud. *)
Definition choppy_audio : VideoProcessing.audio :=
  {| VideoProcessing.audio_array_len := 6;
     VideoProcessing.audio_fps := 10;
     VideoProcessing.audio_duration := 3 # 5;
     VideoProcessing.chunk_db :=
       fun i => if (i =? 1) || (i =? 2) || (i =? 4) then (-10)%Q else (-60)%Q |}.

(** Two loud windows, a fifth of a second in all. *)
Definition short_loud_audio : VideoProcessing.audio :=
  {| VideoProcessing.audio_array_len := 2;
     VideoProcessing.audio_fps := 10;
     VideoProcessing.audio_duration := 1 # 5;
     VideoProcessing.chunk_db := fun _ => (-10)%Q |}.

(** Source files of four seconds each, and of forty. *)
Definition short_files : clip -> Q := Collaborator.spec_duration (fun _ => 4%Q).
Definition long_files : clip -> Q := Collaborator.spec_duration (fun _ => 40%Q).

(** The montage of one intro and one clip with a half-second crossfade. *)
Definition demo_montage : clip := Statements.montage "intro.mp4" ["a.mp4"] (1 # 2).

Definition demo_montage_looped : clip :=
  subclip (concatenate_videoclips (replicate 9 demo_montage) Compose (- (1 # 2)))
          (PInt 0) (PInt 60).

(** The arrangement [{"sequence": [{"clip_index": 5}]}]. *)
Definition fifth_clip_only : gmap string (list (gmap string pyval)) :=
  <["sequence" := [<["clip_index" := PInt 5]> ∅]]> ∅.

(** The entry [{"clip_index": 0, "start_time": 2, "end_time": 0}]. *)
Definition entry_ending_at_zero : gmap string pyval :=
  <["clip_index" := PInt 0]>
    (<["start_time" := PInt 2]> (<["end_time" := PInt 0]> ∅)).

(** The transcript of the scenario of section 8. *)
Definition two_blocks : string := "hello world" +:+ nl +:+ nl +:+ "foo bar baz".

(** A caption that starts twenty-five hours into the programme. *)
Definition late_caption : Subtitles.subtitle :=
  {| Subtitles.start_time := 90000; Subtitles.end_time := 90001;
     Subtitles.text := "late" |}.

End Inputs.

(** ** More of services/subtitles.py *)

Module Structured.

(** *** [process_structured_transcript] *)






End Structured.

Module Styling.

Import Subtitles.

(** *** [apply_font_style] *)

(** The double quote, which a string literal cannot hold here. *)
Definition dquote : string := String (ascii_of_nat 34) EmptyString.

Definition font_open : string :=
  "<font color=" +:+ dquote +:+ "#FFFFFF" +:+ dquote +:+ " face=" +:+ dquote
    +:+ "Arial" +:+ dquote +:+ ">".

(** [subtitle["text"] = f(subtitle["text"])]. *)
Definition set_text (f : string -> string) (sub : subtitle) : subtitle :=
  {| start_time := start_time sub; end_time := end_time sub; text := f (text sub) |}.

Definition wrapped (opening closing : string) (t : string) : string :=
  opening +:+ t +:+ closing.

(** The captions are objects on a heap and a list holds references to
    them: [subtitles.copy()] makes a new list of the same references, and the
    loops assign to the objects themselves. *)
Definition style_each (opening closing : string) (heap : gmap nat subtitle)
    (styled_subtitles : list nat) : gmap nat subtitle :=
  fold_left (fun h ref => alter (set_text (wrapped opening closing)) ref h)
            styled_subtitles heap.

Definition apply_font_style (heap : gmap nat subtitle) (subtitles : list nat)
    (font_style : string) : gmap nat subtitle * list nat :=
  let styled_subtitles := subtitles in
  let heap' :=
    if String.eqb font_style "default" then heap
    else if String.eqb font_style "bold" then
      style_each "<b>" "</b>" heap styled_subtitles
    else if String.eqb font_style "italic" then
      style_each "<i>" "</i>" heap styled_subtitles
    else if String.eqb font_style "modern" then
      style_each font_open "</font>" heap styled_subtitles
    else heap in
  (heap', styled_subtitles).

(** The tags of a style; none for ["default"] and for any other word. *)
Definition style_tags (font_style : string) : option (string * string) :=
  if String.eqb font_style "bold" then Some ("<b>", "</b>")
  else if String.eqb font_style "italic" then Some ("<i>", "</i>")
  else if String.eqb font_style "modern" then Some (font_open, "</font>")
  else None.

(** [f] applied [n] times. *)
Fixpoint repeated (n : nat) (f : string -> string) (t : string) : string :=
  match n with
  | O => t
  | S n' => f (repeated n' f t)
  end.

End Styling.

Module Vtt.

Import Subtitles.

(** *** [format_time_vtt] and [write_vtt] *)

Definition format_time_vtt (seconds : Q) : string :=
  let td := timedelta_of_seconds seconds in
  let hours := td_seconds td / 3600 in
  let remainder := td_seconds td mod 3600 in
  let minutes := remainder / 60 in
  let seconds := remainder mod 60 in
  let milliseconds := td_microseconds td / 1000 in
  zero_padded 2 hours +:+ ":" +:+ zero_padded 2 minutes +:+ ":"
    +:+ zero_padded 2 seconds +:+ "." +:+ zero_padded 3 milliseconds.

Fixpoint vtt_entries (i : Z) (subtitles : list subtitle) : string :=
  match subtitles with
  | [] => ""
  | sub :: rest =>
      str i +:+ nl
        +:+ format_time_vtt (start_time sub) +:+ " --> "
        +:+ format_time_vtt (end_time sub) +:+ nl
        +:+ text sub +:+ nl +:+ nl
        +:+ vtt_entries (i + 1) rest
  end.

Definition write_vtt (subtitles : list subtitle) : string :=
  "WEBVTT" +:+ nl +:+ nl +:+ vtt_entries 1 subtitles.

End Vtt.

(** ** services/emoji_overlay.py *)

Module EmojiOverlay.

(** *** [map_words_to_emojis] *)

(** [s.lower()] on the ASCII range. *)
Definition lower_char (c : ascii) : ascii :=
  let n := nat_of_ascii c in
  if ((65 <=? n) && (n <=? 90))%nat then ascii_of_nat (n + 32) else c.

Fixpoint lower (s : string) : string :=
  match s with
  | EmptyString => EmptyString
  | String c s' => String (lower_char c) (lower s')
  end.

(** [c in chars]. *)
Fixpoint char_in (c : ascii) (chars : string) : bool :=
  match chars with
  | EmptyString => false
  | String d chars' => Ascii.eqb c d || char_in c chars'
  end.

Fixpoint lstrip_chars (chars s : string) : string :=
  match s with
  | EmptyString => EmptyString
  | String c s' => if char_in c chars then lstrip_chars chars s' else s
  end.

Fixpoint rstrip_chars (chars s : string) : string :=
  match s with
  | EmptyString => EmptyString
  | String c s' =>
      match rstrip_chars chars s' with
      | EmptyString => if char_in c chars then EmptyString else String c EmptyString
      | r => String c r
      end
  end.

(** [s.strip(chars)]. *)
Definition strip_chars (chars s : string) : string :=
  rstrip_chars chars (lstrip_chars chars s).

(** [needle in hay]. *)
Fixpoint contains (needle hay : string) : bool :=
  String.prefix needle hay
  || match hay with
     | EmptyString => false
     | String _ hay' => contains needle hay'
     end.

(** The table, in the order the dict literal gives and a loop over
    [items()] follows. *)
Definition keyword_to_emoji : list (string * string) :=
  [ ("happy", "😊"); ("sad", "😢"); ("angry", "😠"); ("surprise", "😲");
    ("laugh", "😂"); ("love", "❤️"); ("congratulations", "🎉"); ("good", "👍");
    ("bad", "👎"); ("money", "💰"); ("idea", "💡"); ("music", "🎵");
    ("movie", "🎬"); ("book", "📚"); ("computer", "💻"); ("phone", "📱");
    ("time", "⏰"); ("food", "🍔"); ("drink", "🍹"); ("car", "🚗");
    ("home", "🏠") ].

(** The punctuation stripped from a word. *)
Definition punctuation : string :=
  ".,!?;:" +:+ String (ascii_of_nat 34) EmptyString +:+ "'()".

Record overlay : Type := {
  emoji : string;
  time : Q;
  duration : Q;
  word : string
}.

(** The inner loop with its [break]: the emoji of the first keyword found
    in [word_lower]. *)
Fixpoint first_match (table : list (string * string)) (word_lower : string)
    : option string :=
  match table with
  | [] => None
  | (keyword, emoji) :: table' =>
      if contains keyword word_lower then Some emoji
      else first_match table' word_lower
  end.

(** One turn of the loop over [enumerate(words)]; the state is
    [emoji_overlays] and [current_time]. *)
Definition visit_word (st : list overlay * Q) (indexed : nat * string)
    : list overlay * Q :=
  let '(emoji_overlays, current_time) := st in
  let '(i, w) := indexed in
  let word_lower := strip_chars punctuation (lower w) in
  let emoji_overlays :=
    match first_match keyword_to_emoji word_lower with
    | Some e =>
        emoji_overlays
          ++ [{| emoji := e; time := current_time; duration := 1; word := w |}]
    | None => emoji_overlays
    end in
  let current_time :=
    if (i mod 3 =? 0)%nat then (current_time + 3 / (5 # 2))%Q else current_time in
  (emoji_overlays, current_time).

(** [enumerate(words)]. *)
Fixpoint enumerate_from {A} (i : nat) (xs : list A) : list (nat * A) :=
  match xs with
  | [] => []
  | x :: xs' => (i, x) :: enumerate_from (S i) xs'
  end.

Definition map_words_to_emojis (transcript_text : string) : list overlay :=
  let words := split_whitespace transcript_text in
  fst (fold_left visit_word (enumerate_from 0 words) ([], 0%Q)).

(** The time at which the word of index [i] is reached: six fifths of a
    second for every earlier index that is a multiple of three. *)
Definition time_of_word (i : nat) : Q :=
  ((6 # 5) * inject_Z (Z.of_nat ((i + 2) / 3)))%Q.

(** The overlays a list of indexed words gives, each at the time of its
    word. *)
Fixpoint overlays_of (indexed : list (nat * string)) : list overlay :=
  match indexed with
  | [] => []
  | (i, w) :: rest =>
      match first_match keyword_to_emoji (strip_chars punctuation (lower w)) with
      | Some e =>
          {| emoji := e; time := time_of_word i; duration := 1; word := w |}
            :: overlays_of rest
      | None => overlays_of rest
      end
  end.

(** Two overlays that differ at most in how the fraction of their time is
    written. *)
Definition same_overlay (a b : overlay) : Prop :=
  emoji a = emoji b /\ (time a == time b)%Q /\ duration a = duration b
  /\ word a = word b.

End EmojiOverlay.

(** ** utils/file_storage.py *)

Module FileStorage.

(** [os.path.join(a, b)] on POSIX paths. *)
Definition join (a b : string) : string :=
  if String.prefix "/" b then b
  else if String.eqb a "" || String.prefix "/" (string_of_list_ascii
                                                   (rev (list_ascii_of_string a)))
  then a +:+ b
  else a +:+ "/" +:+ b.

(** [s.endswith(suffix)]. *)
Definition endswith (s suffix : string) : bool :=
  String.prefix (string_of_list_ascii (rev (list_ascii_of_string suffix)))
                (string_of_list_ascii (rev (list_ascii_of_string s))).

Section Disk.

(** What the functions ask of the file system. *)
Variable exists_ : string -> bool.
Variable listdir : string -> list string.
Variable getsize : string -> Z.
Variable getmtime : string -> Q.

Definition get_file_path (filename : string) : option string :=
  let uploads_path := join "uploads" filename in
  if exists_ uploads_path then Some uploads_path
  else
    let outputs_path := join "outputs" filename in
    if exists_ outputs_path then Some outputs_path else None.

Record file_info : Type := {
  name : string;
  path : string;
  size : Z;
  modified : Q;
  directory : string
}.

(** The body of either loop of [list_files]. *)
Definition add_file (file_type : option string) (dir : string)
    (files : list file_info) (filename : string) : list file_info :=
  let skipped :=
    match file_type with
    | Some t => negb (String.eqb t "") && negb (endswith filename ("." +:+ t))
    | None => false
    end in
  if skipped then files
  else
    let file_path := join dir filename in
    files ++ [{| name := filename; path := file_path;
                 size := getsize file_path; modified := getmtime file_path;
                 directory := dir |}].

(** [files.sort(key=..., reverse=True)]: a stable sort, largest key
    first; an element goes in front of the first one whose key is not
    larger. *)
Fixpoint insert_newest (x : file_info) (sorted : list file_info) : list file_info :=
  match sorted with
  | [] => [x]
  | y :: rest =>
      if Qle_bool (modified y) (modified x) then x :: sorted
      else y :: insert_newest x rest
  end.

Definition sort_newest_first (files : list file_info) : list file_info :=
  fold_right insert_newest [] files.

Definition list_files (file_type : option string) : list file_info :=
  let files := fold_left (add_file file_type "uploads") (listdir "uploads") [] in
  let files := fold_left (add_file file_type "outputs") (listdir "outputs") files in
  sort_newest_first files.

End Disk.

(** The file is wanted by the filter of [list_files]. *)
Definition wanted (file_type : option string) (filename : string) : bool :=
  match file_type with
  | Some t => String.eqb t "" || endswith filename ("." +:+ t)
  | None => true
  end.

End FileStorage.

(** ** Further notions used to state the properties *)

Module MoreStatements.

Import VideoProcessing.

(** The sub-clip an entry with an integer [clip_index] selects from
    [clips], if that index is in range. *)
Definition selected (clips : list clip) (item : gmap string pyval) : option clip :=
  match get item "clip_index" with
  | PInt n =>
      if (0 <=? n) && (n <? Z.of_nat (length clips)) then
        match clips !! Z.to_nat n with
        | Some c =>
            let start_time := get_or item "start_time" (PInt 0) in
            let end_time := get item "end_time" in
            Some (if truthy end_time then subclip c start_time end_time
                  else subclip c start_time PNone)
        | None => None
        end
      else None
  | _ => None
  end.

(** The string holds no slash. *)
Fixpoint no_slash (s : string) : Prop :=
  match s with
  | EmptyString => True
  | String c s' => c <> "/"%char /\ no_slash s'
  end.

(** Every character of the string is white space. *)
Fixpoint all_space (s : string) : Prop :=
  match s with
  | EmptyString => True
  | String c s' => isspace c = true /\ all_space s'
  end.

(** The entry [list_files] makes for [filename] of directory [dir]. *)
Definition info_of (getsize : string -> Z) (getmtime : string -> Q)
    (dir filename : string) : FileStorage.file_info :=
  {| FileStorage.name := filename;
     FileStorage.path := FileStorage.join dir filename;
     FileStorage.size := getsize (FileStorage.join dir filename);
     FileStorage.modified := getmtime (FileStorage.join dir filename);
     FileStorage.directory := dir |}.

(** [x] was modified no earlier than [y]. *)
Definition not_older (x y : FileStorage.file_info) : Prop :=
  (FileStorage.modified y <= FileStorage.modified x)%Q.

(** The string holds no space. *)
Fixpoint no_space (s : string) : Prop :=
  match s with
  | EmptyString => True
  | String c s' => c <> " "%char /\ no_space s'
  end.

End MoreStatements.

(** ** Further inputs *)

Module MoreInputs.

(** Five windows of a tenth of a second, none of them loud. *)
Definition quiet_audio : VideoProcessing.audio :=
  {| VideoProcessing.audio_array_len := 5;
     VideoProcessing.audio_fps := 10;
     VideoProcessing.audio_duration := 1 # 2;
     VideoProcessing.chunk_db := fun _ => (-60)%Q |}.

(** A media library that reports a zero duration for every clip. *)
Definition no_duration : clip -> Q := fun _ => 0%Q.

(** The arrangement [{"sequence": [{"clip_index": 1}, {"start_time": 3}]}],
    whose second entry names no clip. *)
Definition missing_index_arrangement : gmap string (list (gmap string pyval)) :=
  <["sequence" := [<["clip_index" := PInt 1]> ∅; <["start_time" := PInt 3]> ∅]]> ∅.



(** Two captions on the heap, and a list that names the first twice. *)
Definition two_captions : gmap nat Subtitles.subtitle :=
  <[0%nat := {| Subtitles.start_time := 0; Subtitles.end_time := 1;
                Subtitles.text := "one" |}]>
    (<[1%nat := {| Subtitles.start_time := 1; Subtitles.end_time := 2;
                   Subtitles.text := "two" |}]> ∅).

(** A caption from the ninth to the eleventh second of the second hour. *)
Definition early_caption : Subtitles.subtitle :=
  {| Subtitles.start_time := 3609 + (1 # 3); Subtitles.end_time := 3611;
     Subtitles.text := "early" |}.

(** A disk on which only [uploads/a.mp4] and [outputs/a.mp4] exist. *)
Definition two_copies (file_path : string) : bool :=
  String.eqb file_path "uploads/a.mp4" || String.eqb file_path "outputs/a.mp4".

End MoreInputs.

(** ** Statements about [cut_video_with_profile] *)

Module CutProfile.

Import VideoProcessing SpecWords Inputs Statements.

Lemma keep_segment_fold (source : clip) (segments : list (gmap string pyval)) :
  forall acc,
    fold_left (keep_segment source) segments acc
    = acc ++ map (as_subclip source) (List.filter bounds_present segments).
Proof.
  induction segments as [|seg rest IH]; intros acc; simpl.
  - now rewrite app_nil_r.
  - rewrite IH. unfold keep_segment at 1.
    fold (bounds_present seg).
    destruct (bounds_present seg); simpl; [|reflexivity].
    now rewrite <- app_assoc.
Qed.

Lemma spec_valid_has_bounds (source_duration : Q) (segment : gmap string pyval) :
  spec_valid_segment source_duration segment = true ->
  bounds_present segment = true.
Proof.
  unfold spec_valid_segment, bounds_present.
  destruct (get segment "start_time"), (get segment "end_time");
    simpl; intros H; try reflexivity; discriminate H.
Qed.

(** C1, as the code has it: the timeline holds, in the order of the
    profile and without sorting, exactly the segments that carry both a
    [start_time] and an [end_time]; neither bound is compared with the other
    or with the length of the source, so every segment the specification
    calls valid is kept and so is every other segment with two bounds.  The
    call fails with [ValueError] when no segment is kept, and otherwise
    writes the concatenation of the kept sub-clips. *)
Theorem cut_profile_keeps_segments_with_both_bounds
    (video_path : string) (cut_profile : gmap string (list (gmap string pyval)))
    (log : list event) :
  let source := VideoFileClip video_path in
  let segments := default [] (cut_profile !! "segments") in
  let kept := map (as_subclip source) (List.filter bounds_present segments) in
  let output_filename := "outputs/cut_" +:+ basename video_path in
  profile_segments source cut_profile = kept
  /\ (forall source_duration segment,
        In segment segments ->
        spec_valid_segment source_duration segment = true ->
        In (as_subclip source segment) kept)
  /\ cut_video_with_profile video_path cut_profile log
     = match kept with
       | [] => (inl (ValueError "No valid segments found in cut profile"),
                log ++ [Opened video_path])
       | _ :: _ =>
           let final_clip := concatenate_videoclips kept Chain 0 in
           (inr output_filename,
            log ++ [Opened video_path; Wrote final_clip output_filename;
                    Closed final_clip; Closed source])
       end.
Proof.
  intros source segments kept output_filename.
  assert (Hkept : profile_segments source cut_profile = kept).
  { unfold profile_segments. now rewrite keep_segment_fold. }
  split; [exact Hkept|]. split.
  - intros D seg Hin Hvalid. unfold kept.
    apply in_map, filter_In. split; [exact Hin|].
    eapply spec_valid_has_bounds; eassumption.
  - unfold cut_video_with_profile, bind, open, emit, ret, write_videofile,
      close, raise; simpl.
    fold source. rewrite Hkept.
    destruct kept as [|c cs]; simpl; [reflexivity|].
    repeat rewrite <- app_assoc. reflexivity.
Qed.

Lemma cut_profile_keeps_segments_with_both_bounds_witness :
  In (segment_of 1 2) mixed_segments
  /\ spec_valid_segment 10 (segment_of 1 2) = true
  /\ In (as_subclip (VideoFileClip "talk.mp4") (segment_of 1 2))
        (map (as_subclip (VideoFileClip "talk.mp4"))
             (List.filter bounds_present mixed_segments)).
Proof.
  assert (Hin : In (segment_of 1 2) mixed_segments) by (left; reflexivity).
  assert (Hvalid : spec_valid_segment 10 (segment_of 1 2) = true) by reflexivity.
  split; [exact Hin|]. split; [exact Hvalid|].
  destruct (cut_profile_keeps_segments_with_both_bounds "talk.mp4" mixed_profile [])
    as (_ & Hkept & _).
  exact (Hkept 10%Q (segment_of 1 2) Hin Hvalid).
Defined.

(** C1, as the specification words it, fails: on a ten-second source the
    reversed segment and the one that runs past the end are both kept. *)
Lemma cut_profile_range_counterexample :
  let source := VideoFileClip "talk.mp4" in
  profile_segments source mixed_profile
    = [subclip source (PInt 1) (PInt 2); subclip source (PInt 5) (PInt 3);
       subclip source (PInt 8) (PInt 15)]
  /\ spec_apply source 10 mixed_segments = [subclip source (PInt 1) (PInt 2)]
  /\ profile_segments source mixed_profile <> spec_apply source 10 mixed_segments.
Proof.
  vm_compute. repeat split; congruence.
Qed.

End CutProfile.

(** ** Statements about the silence scan *)

Module Silence.

Import VideoProcessing SpecWords Statements Inputs.

Lemma Qltb_lt (x y : Q) : Qltb x y = true <-> (x < y)%Q.
Proof.
  unfold Qltb. rewrite negb_true_iff. split.
  - intros H. apply Qnot_le_lt. intros Hle.
    apply Qle_bool_iff in Hle. congruence.
  - intros H. destruct (Qle_bool y x) eqn:E; [|reflexivity].
    apply Qle_bool_iff in E. exfalso. apply (Qlt_not_le _ _ H E).
Qed.

Lemma Qle_bool_false (x y : Q) : Qle_bool x y = false <-> (y < x)%Q.
Proof.
  rewrite <- Qltb_lt. unfold Qltb. now rewrite negb_true_iff.
Qed.

Lemma window_time_lt (a : audio) (i j : Z) :
  0 < audio_fps a -> i < j -> (window_time a i < window_time a j)%Q.
Proof.
  intros Hfps Hij. unfold window_time, Qdiv.
  apply Qmult_lt_compat_r.
  - apply Qinv_lt_0_compat. now rewrite <- (Zlt_Qlt 0).
  - now rewrite <- Zlt_Qlt.
Qed.

Lemma spans_ordered_snoc (spans : list (Q * Q)) (s e : Q) :
  spans_ordered spans ->
  Forall (fun p => (snd p <= s)%Q) spans ->
  (s < e)%Q ->
  spans_ordered (spans ++ [(s, e)]).
Proof.
  induction spans as [|[s0 e0] rest IH]; simpl; intros Hord Hall Hse.
  - tauto.
  - destruct Hord as (H0 & Hadj & Hrest).
    apply Forall_cons_1 in Hall as [He0 Hall]. simpl in He0.
    split; [exact H0|]. split; [|now apply IH].
    destruct rest as [|[s1 e1] rest']; simpl; [exact He0|exact Hadj].
Qed.

Lemma Forall_end_le (spans : list (Q * Q)) (x y : Q) :
  (x <= y)%Q ->
  Forall (fun p => (snd p <= x)%Q) spans ->
  Forall (fun p => (snd p <= y)%Q) spans.
Proof.
  intros Hxy Hall. eapply Forall_impl; [exact Hall|].
  intros p Hp. simpl in Hp. lra.
Qed.

Lemma scan_chunk_inv (a : audio) (min_silence_duration silence_threshold : Q)
    (step : Z) (st : scan) (b i : Z) :
  0 < audio_fps a -> b < i ->
  scan_inv a st b ->
  scan_inv a (scan_chunk a min_silence_duration silence_threshold step st i) i.
Proof.
  intros Hfps Hbi (Hord & Hends & Hopen).
  pose proof (window_time_lt a b i Hfps Hbi) as Hlt.
  assert (Hweak : scan_inv a st i).
  { split; [exact Hord|]. split.
    - eapply Forall_end_le; [|exact Hends]. lra.
    - intros Hs. destruct (Hopen Hs) as [H1 H2]. split; [exact H1|lra]. }
  unfold scan_chunk.
  destruct (_ =? 0); [exact Hweak|].
  fold (window_time a i).
  destruct (is_silent st) eqn:Hsil; simpl.
  - destruct (Qltb _ _); [|exact Hweak].
    split; [exact Hord|]. simpl. split.
    + eapply Forall_end_le; [|exact Hends]. lra.
    + intros _. split; [|lra].
      eapply Forall_end_le; [|exact Hends]. lra.
  - destruct (Hopen eq_refl) as [Hstart Hle].
    destruct (Qle_bool (chunk_db a i) silence_threshold); [|exact Hweak].
    split; simpl.
    + destruct (Qle_bool min_silence_duration _); [|exact Hord].
      apply spans_ordered_snoc; [exact Hord|exact Hstart|lra].
    + split; [|discriminate].
      destruct (Qle_bool min_silence_duration _).
      * apply Forall_app. split.
        -- eapply Forall_end_le; [|exact Hends]. lra.
        -- constructor; [simpl; lra|constructor].
      * eapply Forall_end_le; [|exact Hends]. lra.
Qed.

Lemma scan_fold_inv (a : audio) (min_silence_duration silence_threshold : Q)
    (step : Z) (indices : list Z) :
  0 < audio_fps a ->
  forall (st : scan) (b : Z),
    StronglySorted Z.lt (b :: indices) ->
    scan_inv a st b ->
    exists b', In b' (b :: indices)
      /\ scan_inv a
           (fold_left (scan_chunk a min_silence_duration silence_threshold step)
                      indices st) b'.
Proof.
  intros Hfps. induction indices as [|i rest IH]; intros st b Hsorted Hinv.
  - exists b. split; [now left|exact Hinv].
  - apply StronglySorted_inv in Hsorted as [Htail Hhead].
    apply Forall_cons_1 in Hhead as [Hbi _].
    destruct (IH (scan_chunk a min_silence_duration silence_threshold step st i) i)
      as (b' & Hin & Hfinal).
    + exact Htail.
    + now apply scan_chunk_inv with (b := b).
    + exists b'. split; [now right|exact Hfinal].
Qed.

Lemma multiples_sorted (step : Z) (count : nat) :
  0 < step ->
  forall first : nat,
    StronglySorted Z.lt (map (fun k => Z.of_nat k * step) (seq first count)).
Proof.
  intros Hstep. induction count as [|count IH]; intros first; simpl.
  - constructor.
  - constructor; [apply IH|].
    apply List.Forall_forall. intros i Hi.
    apply in_map_iff in Hi as (k & <- & Hk).
    apply in_seq in Hk. nia.
Qed.

Lemma range_indices (stop step : Z) :
  0 < step ->
  exists indices,
    range stop step = inr indices
    /\ StronglySorted Z.lt indices
    /\ (forall i, In i indices -> 0 <= i < stop)
    /\ (0 < stop -> exists rest, indices = 0 :: rest).
Proof.
  intros Hstep. unfold range.
  destruct (Z.eqb_spec step 0) as [?|_]; [lia|].
  destruct (Z.ltb_spec step 0) as [?|_]; [lia|].
  eexists. split; [reflexivity|].
  pose proof (Z.mul_div_le (stop + step - 1) step Hstep) as Hdiv.
  split; [now apply multiples_sorted|]. split.
  - intros i Hi. apply in_map_iff in Hi as (k & <- & Hk).
    apply in_seq in Hk. nia.
  - intros Hstop.
    assert (1 <= (stop + step - 1) / step)
      by (apply Z.div_le_lower_bound; lia).
    destruct (Z.to_nat ((stop + step - 1) / step)) as [|count] eqn:E; [lia|].
    simpl. eauto.
Qed.

Lemma step_of_fps (fps : Z) :
  int (inject_Z fps * (1 # 10))%Q = Z.quot fps 10.
Proof.
  unfold int. simpl. now rewrite Z.mul_1_r.
Qed.

(** C7: the spans the scan emits are ordered and do not overlap: each has
    [start < end] and starts at or after the end of the one before.  The
    decoded array is taken to hold no more samples than the duration of the
    audio accounts for, [len(audio_array) <= duration * fps]; the scan raises
    only when the frame rate is so low that the window is zero samples
    wide. *)
Theorem silence_spans_ordered (a : audio)
    (min_silence_duration silence_threshold : Q) :
  (inject_Z (audio_array_len a) <= audio_duration a * inject_Z (audio_fps a))%Q ->
  match detect_non_silent a min_silence_duration silence_threshold with
  | inr spans => spans_ordered spans
  | inl _ => Z.quot (audio_fps a) 10 = 0
  end.
Proof.
  intros Hlen. unfold detect_non_silent. rewrite step_of_fps.
  set (step := Z.quot (audio_fps a) 10).
  destruct (Z.lt_trichotomy step 0) as [Hneg|[Hzero|Hpos]].
  - unfold range.
    destruct (Z.eqb_spec step 0) as [?|_]; [lia|].
    destruct (Z.ltb_spec step 0) as [_|?]; [|lia].
    simpl. exact I.
  - unfold range. rewrite Hzero. simpl. reflexivity.
  - assert (Hfps : 0 < audio_fps a).
    { destruct (Z.lt_ge_cases 0 (audio_fps a)) as [?|Hle]; [assumption|].
      pose proof (Z.quot_le_mono (audio_fps a) 0 10 ltac:(lia) Hle) as Hq.
      rewrite Z.quot_0_l in Hq by lia. unfold step in Hpos. lia. }
    destruct (range_indices (audio_array_len a) step Hpos)
      as (indices & -> & Hsorted & Hbound & _).
    destruct (scan_fold_inv a min_silence_duration silence_threshold step
                indices Hfps scan_init (-1)) as (b' & Hin & Hinv).
    + constructor; [exact Hsorted|].
      apply List.Forall_forall. intros i Hi. apply Hbound in Hi. lia.
    + repeat split; simpl; try constructor; discriminate.
    + destruct Hinv as (Hord & _ & Hopen).
      destruct (is_silent _) eqn:Hsil; [exact Hord|].
      destruct (Hopen eq_refl) as [Hends Hstart].
      apply spans_ordered_snoc; [exact Hord|exact Hends|].
      assert (Hb' : b' < audio_array_len a).
      { destruct Hin as [<-|Hin]; [|apply Hbound in Hin; lia].
        destruct indices as [|i ?]; [simpl in Hsil; discriminate|].
        specialize (Hbound i (or_introl eq_refl)). lia. }
      pose proof (window_time_lt a _ _ Hfps Hb') as Hlt.
      assert (window_time a (audio_array_len a) <= audio_duration a)%Q.
      { unfold window_time. apply Qle_shift_div_r; [|exact Hlen].
        now rewrite <- (Zlt_Qlt 0). }
      lra.
Qed.

Lemma loud_windows_keep_state (a : audio)
    (min_silence_duration silence_threshold : Q) (step : Z) (indices : list Z) :
  forall st : scan,
    is_silent st = false ->
    (forall i, In i indices -> (silence_threshold < chunk_db a i)%Q) ->
    fold_left (scan_chunk a min_silence_duration silence_threshold step) indices st
    = st.
Proof.
  induction indices as [|i rest IH]; intros st Hopen Hloud; simpl; [reflexivity|].
  assert (Hst : scan_chunk a min_silence_duration silence_threshold step st i = st).
  { unfold scan_chunk. destruct (_ =? 0); [reflexivity|].
    rewrite Hopen. simpl.
    assert (Qle_bool (chunk_db a i) silence_threshold = false) as ->
      by (apply Qle_bool_false, Hloud; now left).
    reflexivity. }
  rewrite Hst. apply IH; [exact Hopen|].
  intros j Hj. apply Hloud. now right.
Qed.

(** C2, as the code has it: when every window of a non-empty trace is
    strictly above the threshold, the scan returns exactly the one span
    from 0 to the duration of the audio, whatever [min_silence_duration] is:
    the span that is still open when the trace ends is emitted without the
    length test. *)
Theorem loud_trace_yields_whole_span (a : audio)
    (min_silence_duration silence_threshold : Q) :
  0 < audio_array_len a ->
  10 <= audio_fps a ->
  (forall i, 0 <= i < audio_array_len a -> (silence_threshold < chunk_db a i)%Q) ->
  exists s,
    detect_non_silent a min_silence_duration silence_threshold
      = inr [(s, audio_duration a)]
    /\ (s == 0)%Q.
Proof.
  intros Hlen Hfps Hloud. unfold detect_non_silent. rewrite step_of_fps.
  set (step := Z.quot (audio_fps a) 10).
  assert (Hstep : 0 < step).
  { pose proof (Z.quot_le_mono 10 (audio_fps a) 10 ltac:(lia) Hfps) as Hq.
    change (Z.quot 10 10) with 1 in Hq. unfold step. lia. }
  destruct (range_indices (audio_array_len a) step Hstep)
    as (indices & -> & _ & Hbound & Hhead).
  destruct (Hhead Hlen) as (rest & ->).
  exists (window_time a 0). split.
  - simpl fold_left.
    assert (Hfirst : scan_chunk a min_silence_duration silence_threshold step
                       scan_init 0
                     = {| non_silent_segments := []; is_silent := false;
                          segment_start := window_time a 0 |}).
    { unfold scan_chunk.
      destruct (Z.eqb_spec
                  (Z.max 0 (Z.min (0 + step) (audio_array_len a)
                            - Z.min 0 (audio_array_len a))) 0) as [?|_]; [lia|].
      simpl is_silent. simpl andb.
      assert (Qltb silence_threshold (chunk_db a 0) = true) as ->
        by (apply Qltb_lt, Hloud; lia).
      reflexivity. }
    rewrite Hfirst. rewrite loud_windows_keep_state.
    + reflexivity.
    + reflexivity.
    + intros i Hi. apply Hloud, Hbound. now right.
  - unfold window_time, Qdiv. apply Qmult_0_l.
Qed.

Example choppy_audio_spans :
  detect_non_silent choppy_audio (1 # 10) (-40)
  = inr [((1 # 10)%Q, (3 # 10)%Q); ((4 # 10)%Q, (5 # 10)%Q)].
Proof. vm_compute. reflexivity. Qed.

Lemma silence_spans_ordered_witness :
  (inject_Z (audio_array_len choppy_audio)
   <= audio_duration choppy_audio * inject_Z (audio_fps choppy_audio))%Q
  /\ spans_ordered [((1 # 10)%Q, (3 # 10)%Q); ((4 # 10)%Q, (5 # 10)%Q)].
Proof.
  assert (Hlen : (inject_Z (audio_array_len choppy_audio)
                  <= audio_duration choppy_audio * inject_Z (audio_fps choppy_audio))%Q)
    by (vm_compute; discriminate).
  split; [exact Hlen|].
  exact (silence_spans_ordered choppy_audio (1 # 10) (-40) Hlen).
Defined.

Lemma loud_trace_yields_whole_span_witness :
  0 < audio_array_len short_loud_audio
  /\ 10 <= audio_fps short_loud_audio
  /\ exists s,
       detect_non_silent short_loud_audio (1 # 2) (-40)
         = inr [(s, audio_duration short_loud_audio)]
       /\ (s == 0)%Q.
Proof.
  assert (Hlen : 0 < audio_array_len short_loud_audio) by (simpl; lia).
  assert (Hfps : 10 <= audio_fps short_loud_audio) by (simpl; lia).
  split; [exact Hlen|]. split; [exact Hfps|].
  apply (loud_trace_yields_whole_span short_loud_audio (1 # 2) (-40) Hlen Hfps).
  intros i _. simpl. reflexivity.
Defined.

(** C2, as the specification words it, fails: a trace that is loud
    throughout and lasts a fifth of a second, less than the half second of
    [min_silence_duration], still yields its one span. *)
Lemma loud_short_trace_counterexample :
  (forall i, (-40 < chunk_db short_loud_audio i)%Q)
  /\ (audio_duration short_loud_audio < 1 # 2)%Q
  /\ spec_loud_spans (audio_duration short_loud_audio) (1 # 2) = []
  /\ detect_non_silent short_loud_audio (1 # 2) (-40) = inr [((0 # 10)%Q, (1 # 5)%Q)]
  /\ detect_non_silent short_loud_audio (1 # 2) (-40)
     <> inr (spec_loud_spans (audio_duration short_loud_audio) (1 # 2)).
Proof.
  split; [intros i; reflexivity|].
  split; [reflexivity|].
  split; [reflexivity|].
  split; [vm_compute; reflexivity|].
  vm_compute. discriminate.
Qed.

End Silence.

(** ** Statements about [create_satisfy_montage] *)

Module Montage.

Import VideoProcessing SpecWords Statements Inputs.

Lemma load_all (clip_paths : list string) :
  forall log,
    map_M load_montage_clip clip_paths log
    = (inr (map with_effects clip_paths), log ++ map Opened clip_paths).
Proof.
  induction clip_paths as [|p rest IH]; intros log; simpl.
  - unfold ret. now rewrite app_nil_r.
  - unfold bind at 1. unfold load_montage_clip at 1, bind, open, emit, ret; simpl.
    unfold bind, ret in IH. rewrite IH. simpl.
    now rewrite <- app_assoc.
Qed.

Lemma close_all (clips : list clip) :
  forall log, for_each clips close log = (inr tt, log ++ map Closed clips).
Proof.
  induction clips as [|c rest IH]; intros log; simpl.
  - unfold ret. now rewrite app_nil_r.
  - unfold bind, close, emit. rewrite IH. now rewrite <- app_assoc.
Qed.

Section Run.

Variable duration : clip -> Q.

Lemma montage_run (intro_path : string) (clip_paths : list string)
    (target_duration : Z) (crossfade_duration : Q) (log : list event) :
  create_satisfy_montage duration intro_path clip_paths target_duration
    crossfade_duration log
  = match extend_to_target duration
            (montage intro_path clip_paths crossfade_duration)
            target_duration crossfade_duration with
    | inl e => (inl e, log ++ Opened intro_path :: map Opened clip_paths)
    | inr final_clip =>
        (inr ("outputs/satisfy_montage_" +:+ basename intro_path),
         log ++ montage_log intro_path clip_paths final_clip)
    end.
Proof.
  unfold create_satisfy_montage.
  unfold bind at 1. unfold open, bind, emit, ret; simpl.
  rewrite load_all.
  fold (montage_clips intro_path clip_paths).
  fold (montage intro_path clip_paths crossfade_duration).
  unfold lift.
  destruct (extend_to_target _ _ _ _) as [e|final_clip].
  - now rewrite <- app_assoc.
  - unfold write_videofile, emit.
    change ((let* _ := close (VideoFileClip intro_path) in
             for_each (map with_effects clip_paths) close)%py)
      with (for_each (montage_clips intro_path clip_paths) close).
    rewrite close_all. unfold montage_log.
    repeat (rewrite <- app_assoc; simpl). reflexivity.
Qed.

Lemma not_extended (final_clip : clip) (target_duration : Z)
    (crossfade_duration : Q) :
  (inject_Z target_duration <= duration final_clip)%Q ->
  extend_to_target duration final_clip target_duration crossfade_duration
  = inr final_clip.
Proof.
  intros Hle. unfold extend_to_target, Qltb.
  apply Qle_bool_iff in Hle. now rewrite Hle.
Qed.

Lemma extended (final_clip : clip) (target_duration : Z)
    (crossfade_duration : Q) :
  (0 < duration final_clip)%Q ->
  (duration final_clip < inject_Z target_duration)%Q ->
  extend_to_target duration final_clip target_duration crossfade_duration
  = inr (subclip
           (concatenate_videoclips
              (replicate
                 (Z.to_nat (Qceiling (inject_Z target_duration / duration final_clip)))
                 final_clip)
              Compose (- crossfade_duration))
           (PInt 0) (PInt target_duration)).
Proof.
  intros Hpos Hlt. unfold extend_to_target.
  apply Silence.Qltb_lt in Hlt. rewrite Hlt.
  destruct (Qeq_bool (duration final_clip) 0) eqn:E; [|reflexivity].
  apply Qeq_bool_iff in E. rewrite E in Hpos. now apply Qlt_irrefl in Hpos.
Qed.

(** C9: when the joined montage already lasts at least [target_duration]
    it is written as it is, neither repeated nor trimmed, so the result lasts
    as long as the join and not [target_duration]. *)
Theorem long_montage_is_returned_as_is (intro_path : string)
    (clip_paths : list string) (target_duration : Z) (crossfade_duration : Q)
    (log : list event) :
  let joined := montage intro_path clip_paths crossfade_duration in
  (inject_Z target_duration <= duration joined)%Q ->
  extend_to_target duration joined target_duration crossfade_duration = inr joined
  /\ create_satisfy_montage duration intro_path clip_paths target_duration
       crossfade_duration log
     = (inr ("outputs/satisfy_montage_" +:+ basename intro_path),
        log ++ montage_log intro_path clip_paths joined).
Proof.
  intros joined Hle.
  pose proof (not_extended joined target_duration crossfade_duration Hle) as Hsame.
  split; [exact Hsame|].
  rewrite montage_run. fold joined. now rewrite Hsame.
Qed.

(** C4: when the joined montage is shorter than [target_duration], it is
    repeated as a whole [ceil(target_duration / current_duration)] times, at
    least twice, the repetitions are joined with the same crossfade, and the
    result is trimmed to [[0, target_duration)]; what is written lasts
    exactly [target_duration], a sub-range lasting [t_end - t_start].  The
    joined montage is taken to have a positive duration. *)
Theorem short_montage_is_looped_to_target (intro_path : string)
    (clip_paths : list string) (target_duration : Z) (crossfade_duration : Q)
    (log : list event) :
  let joined := montage intro_path clip_paths crossfade_duration in
  let current_duration := duration joined in
  let repetitions := Qceiling (inject_Z target_duration / current_duration) in
  let looped :=
    concatenate_videoclips (replicate (Z.to_nat repetitions) joined) Compose
      (- crossfade_duration) in
  let final_clip := subclip looped (PInt 0) (PInt target_duration) in
  (forall c t, duration (subclip c (PInt 0) (PInt t)) == inject_Z t)%Q ->
  (0 < current_duration)%Q ->
  (current_duration < inject_Z target_duration)%Q ->
  2 <= repetitions
  /\ create_satisfy_montage duration intro_path clip_paths target_duration
       crossfade_duration log
     = (inr ("outputs/satisfy_montage_" +:+ basename intro_path),
        log ++ montage_log intro_path clip_paths final_clip)
  /\ (duration final_clip == inject_Z target_duration)%Q.
Proof.
  intros joined current_duration repetitions looped final_clip Hsub Hpos Hlt.
  split; [|split].
  - assert (Hratio : (1 < inject_Z target_duration / current_duration)%Q)
      by (apply Qlt_shift_div_l; [exact Hpos|now rewrite Qmult_1_l]).
    pose proof (Qle_ceiling (inject_Z target_duration / current_duration)) as Hceil.
    fold repetitions in Hceil.
    assert (Hone : (inject_Z 1 < inject_Z repetitions)%Q)
      by (eapply Qlt_le_trans; [exact Hratio|exact Hceil]).
    rewrite <- Zlt_Qlt in Hone. lia.
  - rewrite montage_run. fold joined.
    now rewrite (extended joined target_duration crossfade_duration Hpos Hlt).
  - apply Hsub.
Qed.

(** C3, as the code has it: a [target_duration] of zero or less is not
    rejected.  Nothing checks it; the intro and every clip are opened, and,
    the join having a duration that is not negative, the single-pass montage
    is written unchanged and the call returns normally. *)
Theorem nonpositive_target_is_not_rejected (intro_path : string)
    (clip_paths : list string) (target_duration : Z) (crossfade_duration : Q)
    (log : list event) :
  let joined := montage intro_path clip_paths crossfade_duration in
  target_duration <= 0 ->
  (0 <= duration joined)%Q ->
  create_satisfy_montage duration intro_path clip_paths target_duration
    crossfade_duration log
  = (inr ("outputs/satisfy_montage_" +:+ basename intro_path),
     log ++ montage_log intro_path clip_paths joined).
Proof.
  intros joined Htarget Hdur.
  rewrite montage_run. fold joined.
  rewrite not_extended; [reflexivity|].
  apply Qle_trans with (y := inject_Z 0); [|exact Hdur].
  now rewrite <- Zle_Qle.
Qed.

End Run.

Lemma short_files_subclip (c : clip) (t : Z) :
  (short_files (subclip c (PInt 0) (PInt t)) == inject_Z t)%Q.
Proof.
  unfold short_files. simpl. unfold Qminus.
  change (- inject_Z 0)%Q with 0%Q. apply Qplus_0_r.
Qed.

Lemma long_montage_is_returned_as_is_witness :
  (inject_Z 60 <= long_files demo_montage)%Q
  /\ extend_to_target long_files demo_montage 60 (1 # 2) = inr demo_montage
  /\ create_satisfy_montage long_files "intro.mp4" ["a.mp4"] 60 (1 # 2) []
     = (inr "outputs/satisfy_montage_intro.mp4",
        montage_log "intro.mp4" ["a.mp4"] demo_montage).
Proof.
  assert (Hlong : (inject_Z 60 <= long_files demo_montage)%Q)
    by (vm_compute; discriminate).
  split; [exact Hlong|].
  exact (long_montage_is_returned_as_is long_files "intro.mp4" ["a.mp4"] 60
           (1 # 2) [] Hlong).
Defined.

Lemma short_montage_is_looped_to_target_witness :
  (0 < short_files demo_montage)%Q
  /\ (short_files demo_montage < inject_Z 60)%Q
  /\ Qceiling (inject_Z 60 / short_files demo_montage) = 9
  /\ create_satisfy_montage short_files "intro.mp4" ["a.mp4"] 60 (1 # 2) []
     = (inr "outputs/satisfy_montage_intro.mp4",
        montage_log "intro.mp4" ["a.mp4"] demo_montage_looped)
  /\ (short_files demo_montage_looped == inject_Z 60)%Q.
Proof.
  assert (Hpos : (0 < short_files demo_montage)%Q) by reflexivity.
  assert (Hshort : (short_files demo_montage < inject_Z 60)%Q) by reflexivity.
  destruct (short_montage_is_looped_to_target short_files "intro.mp4" ["a.mp4"]
              60 (1 # 2) [] short_files_subclip Hpos Hshort)
    as (_ & Hrun & Hduration).
  split; [exact Hpos|]. split; [exact Hshort|].
  split; [reflexivity|].
  split; [exact Hrun|exact Hduration].
Defined.

Lemma nonpositive_target_is_not_rejected_witness :
  0 <= 0
  /\ (0 <= short_files demo_montage)%Q
  /\ create_satisfy_montage short_files "intro.mp4" ["a.mp4"] 0 (1 # 2) []
     = (inr "outputs/satisfy_montage_intro.mp4",
        montage_log "intro.mp4" ["a.mp4"] demo_montage).
Proof.
  assert (Htarget : 0 <= 0) by lia.
  assert (Hdur : (0 <= short_files demo_montage)%Q) by (vm_compute; discriminate).
  split; [exact Htarget|]. split; [exact Hdur|].
  exact (nonpositive_target_is_not_rejected short_files "intro.mp4" ["a.mp4"] 0
           (1 # 2) [] Htarget Hdur).
Defined.

(** C3, as the specification words it, fails: with a target of zero the
    call opens both files, writes the montage and returns its file name. *)
Lemma zero_target_counterexample :
  0 <= 0
  /\ create_satisfy_montage short_files "intro.mp4" ["a.mp4"] 0 (1 # 2) []
     = (inr "outputs/satisfy_montage_intro.mp4",
        [Opened "intro.mp4"; Opened "a.mp4";
         Wrote demo_montage "outputs/satisfy_montage_intro.mp4";
         Closed (VideoFileClip "intro.mp4"); Closed (with_effects "a.mp4");
         Closed demo_montage])
  /\ ~ spec_rejected_before_media_work
        (create_satisfy_montage short_files "intro.mp4" ["a.mp4"] 0 (1 # 2) []).
Proof.
  split; [lia|]. split; [vm_compute; reflexivity|].
  intros (msg & Hrejected). vm_compute in Hrejected. discriminate Hrejected.
Qed.

End Montage.

(** ** Statements about [render_final_video] *)

Module Render.

Import VideoProcessing SpecWords Statements Inputs.

Lemma open_all (clip_paths : list string) :
  forall log,
    map_M open clip_paths log
    = (inr (map VideoFileClip clip_paths), log ++ map Opened clip_paths).
Proof.
  induction clip_paths as [|p rest IH]; intros log; simpl.
  - unfold ret. now rewrite app_nil_r.
  - unfold bind at 1. unfold open at 1, bind, emit, ret; simpl.
    unfold bind, ret in IH. rewrite IH. simpl.
    now rewrite <- app_assoc.
Qed.

Lemma close_all_raw (clips : list clip) (log : list event) :
  for_each clips (fun c log' => (inr tt, log' ++ [Closed c])) log
  = (inr tt, log ++ map Closed clips).
Proof. exact (Montage.close_all clips log). Qed.

Ltac run_step :=
  cbv beta iota zeta delta [bind ret lift open emit close write_videofile raise].

(** The run, spelled out for a non-empty list of clip paths. *)
Lemma render_run (p : string) (ps : list string)
    (arrangement : option (gmap string (list (gmap string pyval))))
    (intro_path outro_path : option string) (log : list event) :
  let clip_paths := p :: ps in
  let base := base_clips clip_paths intro_path outro_path in
  let opened := log ++ opening_events clip_paths intro_path outro_path in
  let output_filename := "outputs/final_render_" +:+ basename p in
  let plain := (inr output_filename, opened ++ render_events base output_filename) in
  render_final_video clip_paths arrangement intro_path outro_path log
  = match arrangement with
    | None => plain
    | Some arr =>
        if (size arr =? 0)%nat then plain
        else
          match arrange base [] (default [] (arr !! "sequence")) with
          | inl e => (inl e, opened)
          | inr [] => plain
          | inr (c :: cs) =>
              (inr output_filename,
               opened ++ map Closed base ++ render_events (c :: cs) output_filename)
          end
    end.
Proof.
  intros clip_paths base opened output_filename plain.
  subst plain opened base output_filename clip_paths.
  unfold render_final_video. run_step. rewrite (open_all (p :: ps)).
  unfold base_clips, opening_events, render_events.
  destruct (path_given intro_path), (path_given outro_path);
    cbv beta iota zeta;
    (destruct arrangement as [arr|];
     [destruct (size arr =? 0)%nat;
      [|destruct (arrange _ _ _) as [e|[|c cs]]]|]);
    cbv beta iota zeta; rewrite ?close_all_raw; cbv beta iota zeta;
    rewrite ?close_all_raw; rewrite ?app_nil_r;
    repeat (rewrite <- app_assoc; simpl); reflexivity.
Qed.

Lemma arrange_item_out_of_range (clips arranged_clips : list clip)
    (item : gmap string pyval) :
  index_out_of_range clips item ->
  arrange_item clips arranged_clips item = inr arranged_clips.
Proof.
  intros (x & Hx & Hout). unfold arrange_item. rewrite Hx.
  destruct (Qle_bool 0 x) eqn:Hlo; [|reflexivity].
  destruct (Qltb x _) eqn:Hhi; [|reflexivity].
  exfalso. apply Hout. split.
  - now apply Qle_bool_iff.
  - now apply Silence.Qltb_lt.
Qed.

Lemma arrange_app (clips : list clip) (front back : list (gmap string pyval)) :
  forall arranged_clips,
    arrange clips arranged_clips (front ++ back)
    = match arrange clips arranged_clips front with
      | inl e => inl e
      | inr arranged_clips' => arrange clips arranged_clips' back
      end.
Proof.
  induction front as [|item front IH]; intros arranged_clips; simpl.
  - reflexivity.
  - destruct (arrange_item clips arranged_clips item); [reflexivity|apply IH].
Qed.

Lemma arrange_all_out_of_range (clips : list clip)
    (sequence : list (gmap string pyval)) :
  (forall item, In item sequence -> index_out_of_range clips item) ->
  forall arranged_clips, arrange clips arranged_clips sequence = inr arranged_clips.
Proof.
  induction sequence as [|item rest IH]; intros Hall arranged_clips; simpl.
  - reflexivity.
  - rewrite arrange_item_out_of_range by (apply Hall; now left).
    apply IH. intros item' Hin. apply Hall. now right.
Qed.

(** C5, as the code has it: an entry whose [clip_index] is a number
    outside the index range of the base list is skipped without failing,
    wherever it stands in the sequence; and when every entry is skipped the
    arranged list is empty, the base list is kept, and the render behaves as
    it does without an arrangement: it writes the concatenation of the whole
    base list and returns normally. *)
Theorem skipped_entries_fall_back_to_base_list (clip_paths : list string)
    (arr : gmap string (list (gmap string pyval)))
    (intro_path outro_path : option string) (log : list event) :
  let base := base_clips clip_paths intro_path outro_path in
  let sequence := default [] (arr !! "sequence") in
  (forall front item back arranged_clips,
     index_out_of_range base item ->
     arrange base arranged_clips (front ++ item :: back)
     = arrange base arranged_clips (front ++ back))
  /\ ((forall item, In item sequence -> index_out_of_range base item) ->
      arrange base [] sequence = inr []
      /\ render_final_video clip_paths (Some arr) intro_path outro_path log
         = render_final_video clip_paths None intro_path outro_path log
      /\ (forall p ps, clip_paths = p :: ps ->
            render_final_video clip_paths (Some arr) intro_path outro_path log
            = (inr ("outputs/final_render_" +:+ basename p),
               log ++ opening_events clip_paths intro_path outro_path
                   ++ render_events base ("outputs/final_render_" +:+ basename p)))).
Proof.
  intros base sequence. split.
  - intros front item back arranged_clips Hout.
    rewrite !arrange_app. destruct (arrange base arranged_clips front); [reflexivity|].
    simpl. now rewrite arrange_item_out_of_range.
  - intros Hall.
    pose proof (arrange_all_out_of_range base sequence Hall []) as Hempty.
    assert (Hrun : forall p ps, clip_paths = p :: ps ->
      render_final_video clip_paths (Some arr) intro_path outro_path log
      = (inr ("outputs/final_render_" +:+ basename p),
         log ++ opening_events clip_paths intro_path outro_path
             ++ render_events base ("outputs/final_render_" +:+ basename p))).
    { intros p ps Hpaths. subst base sequence. subst clip_paths.
      rewrite render_run. cbv zeta. rewrite Hempty.
      destruct (size arr =? 0)%nat; now rewrite <- app_assoc. }
    split; [exact Hempty|]. split; [|exact Hrun].
    destruct clip_paths as [|p ps] eqn:Hpaths; [reflexivity|].
    rewrite (Hrun p ps eq_refl). rewrite render_run. cbv zeta.
    now rewrite <- app_assoc.
Qed.

(** C10: an [end_time] that is zero, null or otherwise falsy is handled
    exactly as a missing one: the entry yields the sub-clip from
    [start_time] to the end of the clip it names, not the range that ends
    at 0. *)
Theorem falsy_end_time_runs_to_end_of_clip (clips arranged_clips : list clip)
    (item : gmap string pyval) :
  truthy (get item "end_time") = false ->
  arrange_item clips arranged_clips item
    = arrange_item clips arranged_clips (delete "end_time" item)
  /\ (forall x c,
        num (get item "clip_index") = Some x ->
        (0 <= x)%Q -> (x < inject_Z (Z.of_nat (length clips)))%Q ->
        list_index clips (get item "clip_index") = inr c ->
        arrange_item clips arranged_clips item
        = inr (arranged_clips
                 ++ [subclip c (get_or item "start_time" (PInt 0)) PNone])).
Proof.
  intros Hfalsy. split.
  - unfold arrange_item. rewrite Hfalsy.
    unfold get, get_or.
    rewrite lookup_delete_eq.
    rewrite !lookup_delete_ne by discriminate.
    reflexivity.
  - intros x c Hx Hlo Hhi Hc. unfold arrange_item.
    rewrite Hx, Hc, Hfalsy.
    apply Qle_bool_iff in Hlo. apply Silence.Qltb_lt in Hhi.
    now rewrite Hlo, Hhi.
Qed.

Lemma fifth_clip_out_of_range :
  forall item,
    In item (default [] (fifth_clip_only !! "sequence")) ->
    index_out_of_range (base_clips ["a.mp4"; "b.mp4"] None None) item.
Proof.
  intros item [<-|[]]. exists (inject_Z 5). split; [reflexivity|].
  intros [_ Hlt]. vm_compute in Hlt. discriminate Hlt.
Qed.

Lemma skipped_entries_fall_back_to_base_list_witness :
  arrange (base_clips ["a.mp4"; "b.mp4"] None None) []
          (default [] (fifth_clip_only !! "sequence")) = inr []
  /\ render_final_video ["a.mp4"; "b.mp4"] (Some fifth_clip_only) None None []
     = render_final_video ["a.mp4"; "b.mp4"] None None None [].
Proof.
  destruct (skipped_entries_fall_back_to_base_list ["a.mp4"; "b.mp4"]
              fifth_clip_only None None []) as [_ Hall].
  destruct (Hall fifth_clip_out_of_range) as (Hempty & Hsame & _).
  split; [exact Hempty|exact Hsame].
Defined.

(** C5, as the specification words it, fails: the only entry names clip 5
    of a two-clip base list and is skipped, yet the render does not fail; it
    writes the two base clips. *)
Lemma skipped_arrangement_counterexample :
  arrange (base_clips ["a.mp4"; "b.mp4"] None None) []
          (default [] (fifth_clip_only !! "sequence")) = inr []
  /\ render_final_video ["a.mp4"; "b.mp4"] (Some fifth_clip_only) None None []
     = (inr "outputs/final_render_a.mp4",
        [Opened "a.mp4"; Opened "b.mp4";
         Wrote (concatenate_videoclips
                  [VideoFileClip "a.mp4"; VideoFileClip "b.mp4"] Chain 0)
               "outputs/final_render_a.mp4";
         Closed (VideoFileClip "a.mp4"); Closed (VideoFileClip "b.mp4");
         Closed (concatenate_videoclips
                   [VideoFileClip "a.mp4"; VideoFileClip "b.mp4"] Chain 0)])
  /\ ~ spec_fails
        (render_final_video ["a.mp4"; "b.mp4"] (Some fifth_clip_only) None None []).
Proof.
  split; [vm_compute; reflexivity|]. split; [vm_compute; reflexivity|].
  intros (e & Hfails). vm_compute in Hfails. discriminate Hfails.
Qed.

Lemma falsy_end_time_runs_to_end_of_clip_witness :
  truthy (get entry_ending_at_zero "end_time") = false
  /\ arrange_item [VideoFileClip "a.mp4"] [] entry_ending_at_zero
     = arrange_item [VideoFileClip "a.mp4"] [] (delete "end_time" entry_ending_at_zero)
  /\ arrange_item [VideoFileClip "a.mp4"] [] entry_ending_at_zero
     = inr [subclip (VideoFileClip "a.mp4") (PInt 2) PNone].
Proof.
  assert (Hfalsy : truthy (get entry_ending_at_zero "end_time") = false)
    by reflexivity.
  destruct (falsy_end_time_runs_to_end_of_clip [VideoFileClip "a.mp4"] []
              entry_ending_at_zero Hfalsy) as [Habsent Hwhole].
  split; [exact Hfalsy|]. split; [exact Habsent|].
  apply (Hwhole (inject_Z 0) (VideoFileClip "a.mp4")); reflexivity || (vm_compute; discriminate).
Defined.

End Render.

(** ** Statements about plain-text transcripts *)

Module PlainText.

Import Subtitles Statements Inputs.

Lemma add_line_fold (lines : list string) :
  forall subtitles clock,
    fst (fold_left add_line lines (subtitles, clock))
    = subtitles ++ captions_from clock lines.
Proof.
  induction lines as [|line rest IH]; intros subtitles clock; simpl.
  - now rewrite app_nil_r.
  - destruct (String.eqb (strip line) "") eqn:E.
    + apply IH.
    + rewrite IH. now rewrite <- app_assoc.
Qed.

Lemma transcript_lines_blocks (transcript : string) :
  transcript_lines transcript = spec_blocks transcript.
Proof.
  unfold transcript_lines, spec_blocks.
  destruct (length (split (strip transcript) (nl +:+ nl))) as [|[|n]]; reflexivity.
Qed.

Lemma captions_from_texts (lines : list string) :
  forall clock, map text (captions_from clock lines) = caption_texts lines.
Proof.
  unfold caption_texts.
  induction lines as [|line rest IH]; intros clock; simpl; [reflexivity|].
  destruct (String.eqb (strip line) ""); simpl; [apply IH|].
  f_equal. apply IH.
Qed.

Lemma captions_from_durations (lines : list string) :
  forall clock,
    Forall (fun c => end_time c = (start_time c + spec_duration_of (text c))%Q)
           (captions_from clock lines).
Proof.
  induction lines as [|line rest IH]; intros clock; simpl; [constructor|].
  destruct (String.eqb (strip line) ""); [apply IH|].
  constructor; [reflexivity|apply IH].
Qed.

Lemma captions_from_clock (lines : list string) :
  forall clock, follows_clock clock (captions_from clock lines).
Proof.
  induction lines as [|line rest IH]; intros clock; simpl; [exact I|].
  destruct (String.eqb (strip line) ""); [apply IH|].
  simpl. split; [reflexivity|apply IH].
Qed.

(** C8: in plain-text mode the transcript is split on blank-line
    boundaries when more than one block results and on single newlines
    otherwise; every line that is not empty once stripped becomes one
    caption, in order, lasting [max(word_count / 2.5, 1.0)] seconds and
    starting at the running clock, which begins at 0; and the transcript
    of the scenario yields exactly its two captions, from 0 to 1 and from 1
    to 2.2. *)
Theorem plain_text_captions (transcript : string) :
  let captions := process_plain_text_transcript transcript in
  map text captions = caption_texts (spec_blocks transcript)
  /\ Forall (fun c => end_time c = (start_time c + spec_duration_of (text c))%Q)
            captions
  /\ follows_clock 0 captions
  /\ process_plain_text_transcript two_blocks
     = [ {| start_time := 0; end_time := 1; text := "hello world" |};
         {| start_time := 1; end_time := 11 # 5; text := "foo bar baz" |} ].
Proof.
  intros captions. unfold captions, process_plain_text_transcript.
  rewrite add_line_fold, transcript_lines_blocks. simpl app.
  split; [apply captions_from_texts|].
  split; [apply captions_from_durations|].
  split; [apply captions_from_clock|].
  vm_compute. reflexivity.
Qed.

(** The scenario again, in the binary64 arithmetic of Python floats: the
    rounded sum [1.0 + 3 / 2.5] is the float written [2.2]. *)
Example two_blocks_in_binary64 :
  process_plain_text_transcript_binary64 two_blocks
  = [ (0, 1, "hello world"); (1, 2.2, "foo bar baz") ]%float.
Proof. vm_compute. reflexivity. Qed.

End PlainText.

(** ** Statements about SRT timestamps *)

Module SrtTime.

Import Subtitles Collaborator Statements Inputs.

Lemma zero_padded_2 (n : Z) :
  0 <= n < 100 ->
  zero_padded 2 n = String (digit (n / 10)) (String (digit (n mod 10)) "").
Proof.
  intros Hn.
  assert (Hall : forallb
            (fun k => String.eqb (zero_padded 2 (Z.of_nat k))
                        (String (digit (Z.of_nat k / 10))
                           (String (digit (Z.of_nat k mod 10)) "")))
            (seq 0 100) = true) by (vm_compute; reflexivity).
  rewrite forallb_forall in Hall.
  specialize (Hall (Z.to_nat n)). rewrite Z2Nat.id in Hall by lia.
  apply String.eqb_eq, Hall, in_seq. lia.
Qed.

Lemma zero_padded_3 (n : Z) :
  0 <= n < 1000 ->
  zero_padded 3 n
  = String (digit (n / 100))
      (String (digit (n / 10 mod 10)) (String (digit (n mod 10)) "")).
Proof.
  intros Hn.
  assert (Hall : forallb
            (fun k => String.eqb (zero_padded 3 (Z.of_nat k))
                        (String (digit (Z.of_nat k / 100))
                           (String (digit (Z.of_nat k / 10 mod 10))
                              (String (digit (Z.of_nat k mod 10)) ""))))
            (seq 0 1000) = true) by (vm_compute; reflexivity).
  rewrite forallb_forall in Hall.
  specialize (Hall (Z.to_nat n)). rewrite Z2Nat.id in Hall by lia.
  apply String.eqb_eq, Hall, in_seq. lia.
Qed.

Lemma digit_value_digit (d : Z) : 0 <= d < 10 -> digit_value (digit d) = Some d.
Proof.
  intros Hd.
  assert (Hcases : d = 0 \/ d = 1 \/ d = 2 \/ d = 3 \/ d = 4 \/ d = 5
                   \/ d = 6 \/ d = 7 \/ d = 8 \/ d = 9) by lia.
  repeat (destruct Hcases as [->|Hcases]; [reflexivity|]).
  subst. reflexivity.
Qed.

Local Opaque digit.

(** Reading back the four fields of a timestamp. *)
Lemma parse_fields (h m s ms : Z) :
  0 <= h < 100 -> 0 <= m < 100 -> 0 <= s < 100 -> 0 <= ms < 1000 ->
  parse_time (zero_padded 2 h +:+ ":" +:+ zero_padded 2 m +:+ ":"
                +:+ zero_padded 2 s +:+ "," +:+ zero_padded 3 ms)
  = Some (inject_Z (h * 3600 + m * 60 + s) + inject_Z ms / 1000)%Q.
Proof.
  intros Hh Hm Hs Hms.
  rewrite !zero_padded_2, zero_padded_3 by assumption.
  unfold parse_time, digits_value. simpl.
  rewrite !digit_value_digit
    by (first [apply Z.mod_pos_bound; lia
              | split; [apply Z.div_pos; lia | apply Z.div_lt_upper_bound; lia]]).
  assert (Hd : forall n, 10 * (10 * 0 + n / 10) + n mod 10 = n)
    by (intros n; pose proof (Z_div_mod_eq_full n 10); lia).
  assert (Hd3 : 10 * (10 * (10 * 0 + ms / 100) + (ms / 10) mod 10) + ms mod 10 = ms).
  { replace (ms / 100) with (ms / 10 / 10) by (rewrite Z.div_div by lia; reflexivity).
    pose proof (Z_div_mod_eq_full ms 10).
    pose proof (Z_div_mod_eq_full (ms / 10) 10). lia. }
  now rewrite !Hd, Hd3.
Qed.

Lemma round_half_even_close (x : Q) :
  (inject_Z (round_half_even x) - (1 # 2) <= x)%Q
  /\ (x <= inject_Z (round_half_even x) + (1 # 2))%Q.
Proof.
  unfold round_half_even.
  pose proof (Qfloor_le x) as Hlo. pose proof (Qlt_floor x) as Hhi.
  set (f := Qfloor x) in *.
  assert (Hsucc : (inject_Z (f + 1) == inject_Z f + 1)%Q)
    by (rewrite inject_Z_plus; reflexivity).
  rewrite Hsucc in Hhi.
  destruct (x - inject_Z f ?= 1 # 2)%Q eqn:E.
  - apply Qeq_alt in E.
    destruct (Z.even f); [|rewrite Hsucc]; remember (inject_Z f) as y; split; lra.
  - apply Qlt_alt in E. remember (inject_Z f) as y. split; lra.
  - apply Qgt_alt in E. rewrite Hsucc. remember (inject_Z f) as y. split; lra.
Qed.

(** Below one day the timestamp denotes the time rounded to microseconds
    and then cut to whole milliseconds. *)
Lemma format_time_within_a_day (t : Q) :
  let us := round_half_even (t * 1000000)%Q in
  0 <= us < 86400000000 ->
  exists r, parse_time (format_time t) = Some r
    /\ (inject_Z (us - us mod 1000) == r * 1000000)%Q.
Proof.
  intros us Hus. unfold format_time, timedelta_of_seconds. fold us.
  cbn [td_seconds td_microseconds].
  rewrite (Z.mod_small us 86400000000) by lia.
  set (secs := us / 1000000).
  assert (Hsecs : 0 <= secs < 86400).
  { unfold secs. split; [apply Z.div_pos; lia|apply Z.div_lt_upper_bound; lia]. }
  pose proof (Z.mod_pos_bound secs 3600 ltac:(lia)) as Hrem.
  pose proof (Z.mod_pos_bound us 1000000 ltac:(lia)) as Hmicro.
  eexists. split.
  - apply parse_fields.
    + split; [apply Z.div_pos; lia|apply Z.div_lt_upper_bound; lia].
    + split; [apply Z.div_pos; lia|apply Z.div_lt_upper_bound; lia].
    + pose proof (Z.mod_pos_bound (secs mod 3600) 60 ltac:(lia)). lia.
    + split; [apply Z.div_pos; lia|apply Z.div_lt_upper_bound; lia].
  - pose proof (Z_div_mod_eq_full secs 3600) as H1.
    pose proof (Z_div_mod_eq_full (secs mod 3600) 60) as H2.
    pose proof (Z_div_mod_eq_full us 1000000) as H3.
    pose proof (Z_div_mod_eq_full (us mod 1000000) 1000) as H4.
    assert (Hmm : (us mod 1000000) mod 1000 = us mod 1000).
    { apply Z.mod_mod_divide. exists 1000. reflexivity. }
    fold secs in H3.
    replace (secs / 3600 * 3600 + secs mod 3600 / 60 * 60 + (secs mod 3600) mod 60)
      with secs by lia.
    replace (us - us mod 1000)
      with (secs * 1000000 + us mod 1000000 / 1000 * 1000) by lia.
    rewrite inject_Z_plus, !inject_Z_mult.
    change (inject_Z 1000000) with 1000000%Q. change (inject_Z 1000) with 1000%Q.
    field.
Qed.

Lemma microseconds_within_a_day (t : Q) :
  (0 <= t)%Q -> (t < 86400 - (1 # 2000000))%Q ->
  0 <= round_half_even (t * 1000000)%Q < 86400000000.
Proof.
  intros Hlo Hhi.
  destruct (round_half_even_close (t * 1000000)%Q) as [H1 H2].
  set (us := round_half_even (t * 1000000)%Q) in *.
  split.
  - assert (H : (inject_Z (-1) < inject_Z us)%Q).
    { remember (inject_Z us) as u. change (inject_Z (-1)) with (-1)%Q. lra. }
    rewrite <- Zlt_Qlt in H. lia.
  - rewrite Zlt_Qlt. remember (inject_Z us) as u.
    change (inject_Z 86400000000) with 86400000000%Q. lra.
Qed.

(** Within the first day the round trip does hold: the timestamp of a time
    [t] reads back as a time less than a millisecond away from [t]. *)
Lemma srt_roundtrip_within_a_day (t : Q) :
  (0 <= t)%Q -> (t < 86400 - (1 # 2000000))%Q ->
  exists r, parse_time (format_time t) = Some r /\ (Qabs (r - t) < 1 # 1000)%Q.
Proof.
  intros Hlo Hhi.
  pose proof (microseconds_within_a_day t Hlo Hhi) as Hus.
  destruct (format_time_within_a_day t Hus) as (r & Hparse & Hr).
  exists r. split; [exact Hparse|].
  destruct (round_half_even_close (t * 1000000)%Q) as [H1 H2].
  set (us := round_half_even (t * 1000000)%Q) in *.
  pose proof (Z.mod_pos_bound us 1000 ltac:(lia)) as Hk.
  unfold Z.sub in Hr. rewrite inject_Z_plus, inject_Z_opp in Hr.
  assert (Hk0 : (inject_Z 0 <= inject_Z (us mod 1000))%Q)
    by (rewrite <- Zle_Qle; lia).
  assert (Hk1 : (inject_Z (us mod 1000) <= inject_Z 999)%Q)
    by (rewrite <- Zle_Qle; lia).
  change (inject_Z 0) with 0%Q in Hk0. change (inject_Z 999) with 999%Q in Hk1.
  remember (inject_Z us) as u. remember (inject_Z (us mod 1000)) as k.
  apply Qabs_Qlt_condition. split; lra.
Qed.

(** C6 at a caption that starts after the first day: [format_time] reads
    the [seconds] field of the [timedelta] and drops its [days], so 90000 s
    is written as [01:00:00,000]; reading the time-range line back gives
    3600 s and 3601 s, a whole day short of the caption's times. *)
Theorem srt_timestamps_wrap_after_a_day :
  write_srt [late_caption]
  = "1" +:+ nl +:+ "01:00:00,000 --> 01:00:01,000" +:+ nl +:+ "late" +:+ nl +:+ nl
  /\ exists s e,
       parse_time_line (srt_time_line late_caption) = Some (s, e)
       /\ (s == 3600)%Q /\ (e == 3601)%Q
       /\ (Qabs (s - start_time late_caption) == 86400)%Q
       /\ (Qabs (e - end_time late_caption) == 86400)%Q.
Proof.
  split; [vm_compute; reflexivity|].
  exists (3600000 # 1000)%Q, (3601000 # 1000)%Q.
  split; [vm_compute; reflexivity|].
  repeat split; vm_compute; reflexivity.
Qed.

End SrtTime.

(** ** More about the silence scan *)

Module SilenceMore.

Import VideoProcessing Statements Inputs MoreInputs.

Lemma quiet_windows_keep_state (a : audio)
    (min_silence_duration silence_threshold : Q) (step : Z) (indices : list Z) :
  forall st : scan,
    is_silent st = true ->
    (forall i, In i indices -> (chunk_db a i <= silence_threshold)%Q) ->
    fold_left (scan_chunk a min_silence_duration silence_threshold step) indices st
    = st.
Proof.
  induction indices as [|i rest IH]; intros st Hsilent Hquiet; simpl; [reflexivity|].
  assert (Hst : scan_chunk a min_silence_duration silence_threshold step st i = st).
  { unfold scan_chunk. destruct (_ =? 0); [reflexivity|].
    rewrite Hsilent. simpl.
    assert (Qltb silence_threshold (chunk_db a i) = false) as ->.
    { unfold Qltb. apply negb_false_iff, Qle_bool_iff, Hquiet. now left. }
    reflexivity. }
  rewrite Hst. apply IH; [exact Hsilent|].
  intros j Hj. apply Hquiet. now right.
Qed.

(** X1: When no window is above the threshold the scan finds no span at all,
    whatever [min_silence_duration] is. *)
Theorem quiet_trace_yields_nothing (a : audio)
    (min_silence_duration silence_threshold : Q) :
  Z.quot (audio_fps a) 10 <> 0 ->
  (forall i, 0 <= i < audio_array_len a -> (chunk_db a i <= silence_threshold)%Q) ->
  detect_non_silent a min_silence_duration silence_threshold = inr [].
Proof.
  intros Hstep Hquiet. unfold detect_non_silent. rewrite Silence.step_of_fps.
  set (step := Z.quot (audio_fps a) 10) in *.
  destruct (Z.lt_trichotomy step 0) as [Hneg|[Hzero|Hpos]]; [|contradiction|].
  - unfold range.
    destruct (Z.eqb_spec step 0) as [?|_]; [lia|].
    destruct (Z.ltb_spec step 0) as [_|?]; [|lia].
    reflexivity.
  - destruct (Silence.range_indices (audio_array_len a) step Hpos)
      as (indices & -> & _ & Hbound & _).
    rewrite quiet_windows_keep_state; [reflexivity|reflexivity|].
    intros i Hi. apply Hquiet, Hbound, Hi.
Qed.

Lemma quiet_trace_yields_nothing_witness :
  Z.quot (audio_fps quiet_audio) 10 <> 0
  /\ detect_non_silent quiet_audio (1 # 2) (-40) = inr [].
Proof.
  assert (Hstep : Z.quot (audio_fps quiet_audio) 10 <> 0)
    by (vm_compute; discriminate).
  split; [exact Hstep|].
  apply (quiet_trace_yields_nothing quiet_audio (1 # 2) (-40) Hstep).
  intros i _. vm_compute. discriminate.
Defined.

Lemma closed_spans_fold (a : audio) (min_silence_duration silence_threshold : Q)
    (step : Z) (indices : list Z) :
  forall st : scan,
    Forall (fun p => (min_silence_duration <= snd p - fst p)%Q)
           (non_silent_segments st) ->
    Forall (fun p => (min_silence_duration <= snd p - fst p)%Q)
           (non_silent_segments
              (fold_left (scan_chunk a min_silence_duration silence_threshold step)
                         indices st)).
Proof.
  induction indices as [|i rest IH]; intros st Hlong; simpl; [exact Hlong|].
  apply IH. unfold scan_chunk.
  destruct (_ =? 0); [exact Hlong|].
  destruct (is_silent st && _); [exact Hlong|].
  destruct (negb (is_silent st) && _); [|exact Hlong].
  simpl. destruct (Qle_bool min_silence_duration _) eqn:E; [|exact Hlong].
  apply Forall_app. split; [exact Hlong|].
  constructor; [|constructor]. simpl. now apply Qle_bool_iff.
Qed.

(** X2: Every span the scan returns lasts at least [min_silence_duration],
    except possibly the last one when it is the span still open at the end
    of the trace, which then runs to the duration of the audio. *)
Theorem closed_spans_are_long (a : audio)
    (min_silence_duration silence_threshold : Q) :
  match detect_non_silent a min_silence_duration silence_threshold with
  | inr spans =>
      exists closed,
        Forall (fun p => (min_silence_duration <= snd p - fst p)%Q) closed
        /\ (spans = closed
            \/ exists s, spans = closed ++ [(s, audio_duration a)])
  | inl _ => Z.quot (audio_fps a) 10 = 0
  end.
Proof.
  unfold detect_non_silent. rewrite Silence.step_of_fps.
  set (step := Z.quot (audio_fps a) 10).
  unfold range.
  destruct (Z.eqb_spec step 0) as [Hzero|_]; [exact Hzero|].
  assert (Hany : forall indices,
    let st := fold_left (scan_chunk a min_silence_duration silence_threshold step)
                        indices scan_init in
    exists closed,
      Forall (fun p => (min_silence_duration <= snd p - fst p)%Q) closed
      /\ ((if is_silent st then non_silent_segments st
           else non_silent_segments st ++ [(segment_start st, audio_duration a)])
          = closed
          \/ exists s,
               (if is_silent st then non_silent_segments st
                else non_silent_segments st ++ [(segment_start st, audio_duration a)])
               = closed ++ [(s, audio_duration a)])).
  { intros indices st. exists (non_silent_segments st). split.
    - apply closed_spans_fold. constructor.
    - destruct (is_silent st); [now left|right; eauto]. }
  destruct (step <? 0); apply Hany.
Qed.

(** What the loop maintains about where the spans lie. *)
Lemma bounds_fold (a : audio) (min_silence_duration silence_threshold : Q)
    (step : Z) (indices : list Z) :
  0 < audio_fps a ->
  (inject_Z (audio_array_len a) <= audio_duration a * inject_Z (audio_fps a))%Q ->
  (forall i, In i indices -> 0 <= i < audio_array_len a) ->
  forall st : scan,
    Forall (fun p => (0 <= fst p)%Q /\ (snd p <= audio_duration a)%Q)
           (non_silent_segments st)
    /\ (is_silent st = false -> (0 <= segment_start st)%Q) ->
    let st' := fold_left (scan_chunk a min_silence_duration silence_threshold step)
                         indices st in
    Forall (fun p => (0 <= fst p)%Q /\ (snd p <= audio_duration a)%Q)
           (non_silent_segments st')
    /\ (is_silent st' = false -> (0 <= segment_start st')%Q).
Proof.
  intros Hfps Hlen.
  induction indices as [|i rest IH]; intros Hbound st Hinv; simpl; [exact Hinv|].
  apply IH; [intros j Hj; apply Hbound; now right|].
  destruct Hinv as [Hspans Hstart].
  assert (Hi : 0 <= i < audio_array_len a) by (apply Hbound; now left).
  assert (Hlo : (0 <= window_time a i)%Q).
  { destruct (Z.eq_dec i 0) as [->|Hne].
    - unfold window_time, Qdiv. rewrite Qmult_0_l. apply Qle_refl.
    - apply Qlt_le_weak.
      assert (H0 : (window_time a 0 == 0)%Q)
        by (unfold window_time, Qdiv; apply Qmult_0_l).
      rewrite <- H0. apply Silence.window_time_lt; lia. }
  assert (Hhi : (window_time a i <= audio_duration a)%Q).
  { apply Qlt_le_weak.
    apply Qlt_le_trans with (y := window_time a (audio_array_len a)).
    - apply Silence.window_time_lt; lia.
    - unfold window_time. apply Qle_shift_div_r; [|exact Hlen].
      now rewrite <- (Zlt_Qlt 0). }
  unfold scan_chunk. destruct (_ =? 0); [split; assumption|].
  fold (window_time a i).
  destruct (is_silent st) eqn:Hsil; simpl.
  - destruct (Qltb _ _); simpl; [|split; [assumption|rewrite Hsil; discriminate]].
    split; [assumption|intros _; exact Hlo].
  - destruct (Qle_bool (chunk_db a i) silence_threshold); simpl;
      [|split; [assumption|rewrite Hsil; auto]].
    split; [|discriminate].
    destruct (Qle_bool min_silence_duration _); [|assumption].
    apply Forall_app. split; [assumption|].
    constructor; [|constructor]. simpl. split; [now apply Hstart|exact Hhi].
Qed.

(** X3: Every span lies within the audio: it starts at 0 or later and ends
    at the duration of the audio or earlier, the decoded array holding no
    more samples than that duration accounts for. *)
Theorem spans_within_audio (a : audio)
    (min_silence_duration silence_threshold : Q) :
  (inject_Z (audio_array_len a) <= audio_duration a * inject_Z (audio_fps a))%Q ->
  match detect_non_silent a min_silence_duration silence_threshold with
  | inr spans =>
      Forall (fun p => (0 <= fst p)%Q /\ (snd p <= audio_duration a)%Q) spans
  | inl _ => Z.quot (audio_fps a) 10 = 0
  end.
Proof.
  intros Hlen. unfold detect_non_silent. rewrite Silence.step_of_fps.
  set (step := Z.quot (audio_fps a) 10).
  destruct (Z.lt_trichotomy step 0) as [Hneg|[Hzero|Hpos]].
  - unfold range.
    destruct (Z.eqb_spec step 0) as [?|_]; [lia|].
    destruct (Z.ltb_spec step 0) as [_|?]; [|lia].
    simpl. constructor.
  - unfold range. rewrite Hzero. reflexivity.
  - assert (Hfps : 0 < audio_fps a).
    { destruct (Z.lt_ge_cases 0 (audio_fps a)) as [?|Hle]; [assumption|].
      pose proof (Z.quot_le_mono (audio_fps a) 0 10 ltac:(lia) Hle) as Hq.
      rewrite Z.quot_0_l in Hq by lia. unfold step in Hpos. lia. }
    destruct (Silence.range_indices (audio_array_len a) step Hpos)
      as (indices & -> & _ & Hbound & _).
    destruct (bounds_fold a min_silence_duration silence_threshold step indices
                Hfps Hlen Hbound scan_init) as [Hspans Hstart].
    { split; [constructor|discriminate]. }
    destruct (is_silent _) eqn:Hsil; [exact Hspans|].
    apply Forall_app. split; [exact Hspans|].
    constructor; [|constructor]. simpl. split; [now apply Hstart|apply Qle_refl].
Qed.

Lemma spans_within_audio_witness :
  (inject_Z (audio_array_len choppy_audio)
   <= audio_duration choppy_audio * inject_Z (audio_fps choppy_audio))%Q
  /\ Forall (fun p => (0 <= fst p)%Q /\ (snd p <= 3 # 5)%Q)
            [((1 # 10)%Q, (3 # 10)%Q); ((4 # 10)%Q, (5 # 10)%Q)].
Proof.
  assert (Hlen : (inject_Z (audio_array_len choppy_audio)
                  <= audio_duration choppy_audio * inject_Z (audio_fps choppy_audio))%Q)
    by (vm_compute; discriminate).
  split; [exact Hlen|].
  exact (spans_within_audio choppy_audio (1 # 10) (-40) Hlen).
Defined.

End SilenceMore.

(** ** More about [create_satisfy_montage] *)

Module MontageMore.

Import VideoProcessing Statements Inputs MoreInputs.

(** X4: A montage whose join has no duration cannot be looped: with a
    positive target the call raises once the intro and every clip have been
    opened; nothing is written and none of the opened clips is closed. *)
Theorem empty_montage_raises_and_leaks (duration : clip -> Q)
    (intro_path : string) (clip_paths : list string) (target_duration : Z)
    (crossfade_duration : Q) (log : list event) :
  (duration (montage intro_path clip_paths crossfade_duration) == 0)%Q ->
  0 < target_duration ->
  exists e,
    create_satisfy_montage duration intro_path clip_paths target_duration
      crossfade_duration log
    = (inl e, log ++ Opened intro_path :: map Opened clip_paths).
Proof.
  intros Hzero Htarget. exists ZeroDivisionError.
  rewrite Montage.montage_run. unfold extend_to_target.
  assert (Hlt : Qltb (duration (montage intro_path clip_paths crossfade_duration))
                     (inject_Z target_duration) = true).
  { apply Silence.Qltb_lt. rewrite Hzero. now rewrite <- (Zlt_Qlt 0). }
  rewrite Hlt.
  assert (Heq : Qeq_bool (duration (montage intro_path clip_paths crossfade_duration)) 0
                = true) by now apply Qeq_bool_iff.
  now rewrite Heq.
Qed.

Lemma empty_montage_raises_and_leaks_witness :
  (no_duration (montage "intro.mp4" ["a.mp4"] (1 # 2)) == 0)%Q
  /\ 0 < 60
  /\ exists e,
       create_satisfy_montage no_duration "intro.mp4" ["a.mp4"] 60 (1 # 2) []
       = (inl e, [Opened "intro.mp4"; Opened "a.mp4"]).
Proof.
  assert (Hzero : (no_duration (montage "intro.mp4" ["a.mp4"] (1 # 2)) == 0)%Q)
    by reflexivity.
  assert (Htarget : 0 < 60) by lia.
  split; [exact Hzero|]. split; [exact Htarget|].
  exact (empty_montage_raises_and_leaks no_duration "intro.mp4" ["a.mp4"] 60
           (1 # 2) [] Hzero Htarget).
Defined.

(** X5: The montage is never looped more often than needed: the number of
    repetitions is the least whole number of copies whose durations add up
    to the target. *)
Theorem repetitions_are_minimal (duration : clip -> Q) (final_clip : clip)
    (target_duration : Z) (crossfade_duration : Q) :
  let current_duration := duration final_clip in
  let repetitions := Qceiling (inject_Z target_duration / current_duration) in
  (0 < current_duration)%Q ->
  (current_duration < inject_Z target_duration)%Q ->
  extend_to_target duration final_clip target_duration crossfade_duration
  = inr (subclip
           (concatenate_videoclips
              (replicate (Z.to_nat repetitions) final_clip) Compose
              (- crossfade_duration))
           (PInt 0) (PInt target_duration))
  /\ (inject_Z (repetitions - 1) * current_duration < inject_Z target_duration)%Q
  /\ (inject_Z target_duration <= inject_Z repetitions * current_duration)%Q.
Proof.
  intros current_duration repetitions Hpos Hlt.
  split; [now apply Montage.extended|].
  assert (Hne : ~ (current_duration == 0)%Q).
  { intros H. rewrite H in Hpos. now apply Qlt_irrefl in Hpos. }
  assert (Hback : (inject_Z target_duration / current_duration * current_duration
                   == inject_Z target_duration)%Q) by (field; exact Hne).
  set (ratio := (inject_Z target_duration / current_duration)%Q) in *.
  split.
  - rewrite <- Hback. apply Qmult_lt_compat_r; [exact Hpos|].
    apply Qceiling_lt.
  - rewrite <- Hback at 1. apply Qmult_le_compat_r; [|now apply Qlt_le_weak].
    apply Qle_ceiling.
Qed.

Lemma repetitions_are_minimal_witness :
  (0 < short_files demo_montage)%Q
  /\ (short_files demo_montage < inject_Z 60)%Q
  /\ (inject_Z (9 - 1) * short_files demo_montage < inject_Z 60)%Q
  /\ (inject_Z 60 <= inject_Z 9 * short_files demo_montage)%Q.
Proof.
  assert (Hpos : (0 < short_files demo_montage)%Q) by reflexivity.
  assert (Hshort : (short_files demo_montage < inject_Z 60)%Q) by reflexivity.
  destruct (repetitions_are_minimal short_files demo_montage 60 (1 # 2) Hpos Hshort)
    as (_ & Hbelow & Habove).
  split; [exact Hpos|]. split; [exact Hshort|].
  split; [exact Hbelow|exact Habove].
Defined.

End MontageMore.

(** ** More about [render_final_video] *)

Module RenderMore.

Import VideoProcessing Statements MoreStatements Inputs MoreInputs.

Lemma Qle_bool_0_inject (n : Z) : Qle_bool 0 (inject_Z n) = (0 <=? n).
Proof. unfold Qle_bool. simpl. now rewrite !Z.mul_1_r. Qed.

Lemma Qltb_inject (n m : Z) : Qltb (inject_Z n) (inject_Z m) = (n <? m).
Proof.
  unfold Qltb, Qle_bool. simpl. rewrite !Z.mul_1_r. symmetry. apply Z.ltb_antisym.
Qed.

(** One turn of the loop on an entry with an integer index: the entry adds
    the sub-clip it selects, or nothing. *)
Lemma arrange_item_integer (clips arranged_clips : list clip)
    (item : gmap string pyval) (n : Z) :
  get item "clip_index" = PInt n ->
  arrange_item clips arranged_clips item
  = inr (arranged_clips ++ option_list (selected clips item)).
Proof.
  intros Hindex. unfold arrange_item, selected. rewrite Hindex. simpl num.
  cbv iota beta. rewrite Qle_bool_0_inject, Qltb_inject.
  destruct ((0 <=? n) && (n <? Z.of_nat (length clips))) eqn:Hrange;
    [|simpl; now rewrite app_nil_r].
  apply andb_true_iff in Hrange as [Hlo Hhi].
  apply Z.leb_le in Hlo. apply Z.ltb_lt in Hhi.
  unfold list_index.
  destruct (Z.ltb_spec n 0) as [?|_]; [lia|].
  destruct (Z.leb_spec 0 n) as [_|?]; [|lia].
  destruct (Z.ltb_spec n (Z.of_nat (length clips))) as [_|?]; [|lia].
  simpl andb. cbv iota.
  destruct (lookup_lt_is_Some_2 clips (Z.to_nat n) ltac:(lia)) as [c Hc].
  rewrite Hc. destruct (truthy (get item "end_time")); reflexivity.
Qed.

Lemma arrange_integers (clips : list clip) (sequence : list (gmap string pyval)) :
  (forall item, In item sequence -> exists n, get item "clip_index" = PInt n) ->
  forall arranged_clips,
    arrange clips arranged_clips sequence
    = inr (arranged_clips ++ omap (selected clips) sequence).
Proof.
  induction sequence as [|item rest IH]; intros Hint arranged_clips; simpl.
  - now rewrite app_nil_r.
  - destruct (Hint item (or_introl eq_refl)) as [n Hn].
    rewrite (arrange_item_integer clips arranged_clips item n Hn).
    rewrite IH by (intros it Hit; apply Hint; now right).
    rewrite <- app_assoc. f_equal.
    destruct (selected clips item); reflexivity.
Qed.

Lemma sequence_given (arr : gmap string (list (gmap string pyval)))
    (sequence : list (gmap string pyval)) :
  arr !! "sequence" = Some sequence -> (size arr =? 0)%nat = false.
Proof.
  intros Hseq. apply Nat.eqb_neq. intros Hsize.
  apply map_size_empty_iff in Hsize. subst arr.
  rewrite lookup_empty in Hseq. discriminate Hseq.
Qed.

(** X6: How the render fails.  Without clip paths it raises [IndexError]
    before a single file is opened.  With an arrangement whose entries have
    integer indices up to one whose [clip_index] is missing, null or a
    string, it raises [TypeError] once every file has been opened: nothing
    is written and none of the opened clips is closed. *)
Theorem bad_input_fails_before_any_output (p : string) (ps : list string)
    (arr : gmap string (list (gmap string pyval)))
    (intro_path outro_path : option string) (log : list event)
    (front back : list (gmap string pyval)) (item : gmap string pyval) :
  (forall arrangement,
     render_final_video [] arrangement intro_path outro_path log
     = (inl IndexError, log))
  /\ (arr !! "sequence" = Some (front ++ item :: back) ->
      (forall it, In it front -> exists n, get it "clip_index" = PInt n) ->
      num (get item "clip_index") = None ->
      render_final_video (p :: ps) (Some arr) intro_path outro_path log
      = (inl TypeError, log ++ opening_events (p :: ps) intro_path outro_path)).
Proof.
  split; [reflexivity|].
  intros Hseq Hfront Hbad.
  rewrite Render.render_run. cbv zeta.
  rewrite (sequence_given arr _ Hseq), Hseq. simpl default.
  rewrite Render.arrange_app, (arrange_integers _ front Hfront).
  simpl. unfold arrange_item. now rewrite Hbad.
Qed.

Lemma bad_input_fails_before_any_output_witness :
  render_final_video ["a.mp4"; "b.mp4"] (Some missing_index_arrangement)
    (Some "intro.mp4") None []
  = (inl TypeError, [Opened "a.mp4"; Opened "b.mp4"; Opened "intro.mp4"]).
Proof.
  destruct (bad_input_fails_before_any_output "a.mp4" ["b.mp4"]
              missing_index_arrangement (Some "intro.mp4") None []
              [<["clip_index" := PInt 1]> ∅] [] (<["start_time" := PInt 3]> ∅))
    as [_ Hfails].
  apply Hfails.
  - reflexivity.
  - intros it [<-|[]]. exists 1. reflexivity.
  - reflexivity.
Defined.



End RenderMore.

(** ** Where the output files go *)

Module Naming.

Import VideoProcessing Statements MoreStatements Inputs.

Lemma no_slash_app (s t : string) : no_slash s -> no_slash t -> no_slash (s +:+ t).
Proof.
  induction s as [|c s IH]; simpl; [tauto|].
  intros [Hc Hs] Ht. split; [exact Hc|now apply IH].
Qed.

Lemma basename_from_no_slash (p : string) :
  forall seen, no_slash seen -> no_slash (basename_from (seen +:+ p) p).
Proof.
  induction p as [|c p IH]; intros seen Hseen; simpl.
  - apply no_slash_app; [exact Hseen|exact I].
  - destruct (Ascii.eqb_spec c "/") as [->|Hc].
    + apply (IH EmptyString). exact I.
    + replace (seen +:+ String c p) with ((seen +:+ String c EmptyString) +:+ p).
      * apply IH. apply no_slash_app; [exact Hseen|]. simpl. tauto.
      * clear. induction seen as [|d seen IHseen]; [reflexivity|].
        change (String d ((seen +:+ String c EmptyString) +:+ p)
                = String d (seen +:+ String c p)).
        now rewrite IHseen.
Qed.

Lemma basename_no_slash (p : string) : no_slash (basename p).
Proof. apply (basename_from_no_slash p EmptyString). exact I. Qed.

(** X8: Whatever directories the input path names, a service that succeeds
    returns a file directly inside [outputs/]: after the prefix of the
    service the name holds no slash. *)
Theorem outputs_are_written_in_outputs :
  (forall video_path cut_profile log out,
     fst (cut_video_with_profile video_path cut_profile log) = inr out ->
     exists b, out = "outputs/cut_" +:+ b /\ no_slash b)
  /\ (forall duration intro_path clip_paths target_duration crossfade_duration
             log out,
        fst (create_satisfy_montage duration intro_path clip_paths
               target_duration crossfade_duration log) = inr out ->
        exists b, out = "outputs/satisfy_montage_" +:+ b /\ no_slash b)
  /\ (forall clip_paths arrangement intro_path outro_path log out,
        fst (render_final_video clip_paths arrangement intro_path outro_path log)
        = inr out ->
        exists b, out = "outputs/final_render_" +:+ b /\ no_slash b).
Proof.
  split; [|split].
  - intros video_path cut_profile log out.
    unfold cut_video_with_profile, bind, open, emit, ret, write_videofile,
      close, raise; simpl.
    destruct (profile_segments _ _); simpl; intros H; [discriminate H|].
    injection H as <-. eexists. split; [reflexivity|apply basename_no_slash].
  - intros duration intro_path clip_paths target_duration crossfade_duration
      log out.
    rewrite Montage.montage_run.
    destruct (extend_to_target _ _ _ _); simpl; intros H; [discriminate H|].
    injection H as <-. eexists. split; [reflexivity|apply basename_no_slash].
  - intros [|p ps] arrangement intro_path outro_path log out;
      [intros H; discriminate H|].
    rewrite Render.render_run. cbv zeta.
    destruct arrangement as [arr|];
      [destruct (size arr =? 0)%nat;
       [|destruct (arrange _ _ _) as [e|[|c cs]]]|];
      simpl; intros H; try discriminate H;
      injection H as <-; eexists; (split; [reflexivity|apply basename_no_slash]).
Qed.

Lemma outputs_are_written_in_outputs_witness :
  exists b, "outputs/cut_talk.mp4" = "outputs/cut_" +:+ b /\ no_slash b.
Proof.
  destruct outputs_are_written_in_outputs as [Hcut _].
  apply (Hcut "uploads/2024/talk.mp4" mixed_profile []). reflexivity.
Defined.

End Naming.

(** ** More about plain-text transcripts *)

Module PlainTextMore.

Import Subtitles Statements MoreStatements Inputs.

Lemma lstrip_head (s : string) :
  lstrip s = EmptyString
  \/ exists c r, lstrip s = String c r /\ isspace c = false.
Proof.
  induction s as [|c s IH]; simpl; [now left|].
  destruct (isspace c) eqn:E; [exact IH|].
  right. eauto.
Qed.

Lemma rstrip_head (c : ascii) (r : string) :
  isspace c = false -> exists r', rstrip (String c r) = String c r'.
Proof.
  intros Hc. simpl. destruct (rstrip r); [rewrite Hc|]; eauto.
Qed.

Lemma rstrip_idempotent (s : string) : rstrip (rstrip s) = rstrip s.
Proof.
  induction s as [|c s IH]; simpl; [reflexivity|].
  destruct (rstrip s) as [|d r] eqn:E.
  - destruct (isspace c) eqn:Hc; simpl; [reflexivity|now rewrite Hc].
  - simpl. simpl in IH. destruct (rstrip r) as [|d' r'] eqn:E'.
    + destruct (isspace d); [discriminate IH|]. now rewrite IH.
    + now rewrite IH.
Qed.

Lemma strip_idempotent (s : string) : strip (strip s) = strip s.
Proof.
  unfold strip. destruct (lstrip_head s) as [->|(c & r & -> & Hc)]; [reflexivity|].
  destruct (rstrip_head c r Hc) as [r' Hr']. rewrite Hr'.
  simpl lstrip. rewrite Hc. rewrite <- Hr'. apply rstrip_idempotent.
Qed.

Lemma duration_at_least_one (line : string) : (1 <= spec_duration_of line)%Q.
Proof.
  unfold spec_duration_of, Py.max.
  destruct (Qle_bool 1 _) eqn:E; [now apply Qle_bool_iff|apply Qle_refl].
Qed.

Lemma captions_from_sound (lines : list string) :
  forall clock,
    Forall (fun c => text c <> EmptyString /\ strip (text c) = text c
                     /\ (start_time c + 1 <= end_time c)%Q)
           (captions_from clock lines).
Proof.
  induction lines as [|line rest IH]; intros clock; simpl; [constructor|].
  destruct (String.eqb_spec (strip line) "") as [Hempty|Hfull]; [apply IH|].
  constructor; [|apply IH]. simpl. split; [exact Hfull|].
  split; [apply strip_idempotent|].
  apply Qplus_le_r, duration_at_least_one.
Qed.

(** X9: Every caption of a plain-text transcript has a text that is not
    empty and carries no white space at either end, and lasts at least one
    second; following the running clock, the captions therefore never
    overlap. *)
Theorem plain_text_captions_are_sound (transcript : string) :
  let captions := process_plain_text_transcript transcript in
  Forall (fun c => text c <> EmptyString /\ strip (text c) = text c
                   /\ (start_time c + 1 <= end_time c)%Q) captions
  /\ follows_clock 0 captions.
Proof.
  intros captions. unfold captions, process_plain_text_transcript.
  rewrite PlainText.add_line_fold. simpl app.
  split; [apply captions_from_sound|apply PlainText.captions_from_clock].
Qed.

Lemma lstrip_all_space (s : string) : all_space s -> lstrip s = EmptyString.
Proof.
  induction s as [|c s IH]; simpl; [reflexivity|].
  intros [Hc Hs]. rewrite Hc. now apply IH.
Qed.

(** X10: A transcript that is empty or holds nothing but white space yields
    no caption, and the SRT text written for it is empty. *)
Theorem blank_transcript_yields_nothing (transcript : string) :
  all_space transcript ->
  process_plain_text_transcript transcript = []
  /\ write_srt (process_plain_text_transcript transcript) = EmptyString.
Proof.
  intros Hblank.
  assert (Hnone : process_plain_text_transcript transcript = []).
  { unfold process_plain_text_transcript, transcript_lines, strip.
    rewrite (lstrip_all_space transcript Hblank). reflexivity. }
  rewrite Hnone. split; reflexivity.
Qed.

Lemma blank_transcript_yields_nothing_witness :
  all_space ("  " +:+ nl +:+ nl +:+ " ")
  /\ process_plain_text_transcript ("  " +:+ nl +:+ nl +:+ " ") = [].
Proof.
  assert (Hblank : all_space ("  " +:+ nl +:+ nl +:+ " "))
    by (simpl; repeat split; reflexivity).
  split; [exact Hblank|].
  exact (proj1 (blank_transcript_yields_nothing _ Hblank)).
Defined.

End PlainTextMore.

(** ** Statements about structured transcripts *)

Module StructuredFacts.

Import Structured MoreInputs.






End StructuredFacts.

(** ** Statements about [apply_font_style] *)

Module StylingFacts.

Import Subtitles Styling MoreInputs.

Lemma repeated_shift (n : nat) (f : string -> string) (t : string) :
  repeated n f (f t) = f (repeated n f t).
Proof. induction n as [|n IH]; simpl; [reflexivity|now rewrite IH]. Qed.

(** What the loop leaves at a reference: the caption that was there, its
    text wrapped once for every time the list names it. *)
Lemma style_each_lookup (opening closing : string) (refs : list nat) :
  forall (heap : gmap nat subtitle) (ref : nat),
    style_each opening closing heap refs !! ref
    = set_text (repeated (count_occ Nat.eq_dec refs ref) (wrapped opening closing))
        <$> heap !! ref.
Proof.
  unfold style_each.
  induction refs as [|r refs IH]; intros heap ref; simpl.
  - destruct (heap !! ref) as [[s e t]|]; reflexivity.
  - rewrite IH. destruct (Nat.eq_dec r ref) as [->|Hne].
    + rewrite lookup_alter_eq.
      destruct (heap !! ref) as [[s e t]|]; simpl; [|reflexivity].
      unfold set_text. simpl. now rewrite repeated_shift.
    + now rewrite lookup_alter_ne.
Qed.

Lemma styled_heap (heap : gmap nat subtitle) (refs : list nat)
    (font_style : string) :
  fst (apply_font_style heap refs font_style)
  = match style_tags font_style with
    | Some (opening, closing) => style_each opening closing heap refs
    | None => heap
    end.
Proof.
  unfold apply_font_style, style_tags. simpl.
  destruct (String.eqb_spec font_style "default") as [->|_]; [reflexivity|].
  destruct (String.eqb font_style "bold"); [reflexivity|].
  destruct (String.eqb font_style "italic"); [reflexivity|].
  destruct (String.eqb font_style "modern"); reflexivity.
Qed.

(** X12: Styling never touches the timing: whatever the style and the list,
    every caption on the heap keeps its start and its end, a caption the
    list does not name is left as it was, and the list returned names the
    same captions as the list passed in. *)
Theorem styling_keeps_timing (heap : gmap nat subtitle) (refs : list nat)
    (font_style : string) (ref : nat) (sub : subtitle) :
  heap !! ref = Some sub ->
  snd (apply_font_style heap refs font_style) = refs
  /\ exists sub',
       fst (apply_font_style heap refs font_style) !! ref = Some sub'
       /\ start_time sub' = start_time sub
       /\ end_time sub' = end_time sub
       /\ (~ In ref refs -> sub' = sub).
Proof.
  intros Hsub. split; [reflexivity|].
  rewrite styled_heap.
  destruct (style_tags font_style) as [[opening closing]|].
  - rewrite style_each_lookup, Hsub. simpl. eexists. split; [reflexivity|].
    split; [reflexivity|]. split; [reflexivity|].
    intros Hnotin. rewrite (proj1 (count_occ_not_In Nat.eq_dec refs ref) Hnotin).
    destruct sub. reflexivity.
  - exists sub. repeat split; auto.
Qed.

Lemma styling_keeps_timing_witness :
  two_captions !! 1%nat
    = Some {| start_time := 1; end_time := 2; text := "two" |}
  /\ exists sub',
       fst (apply_font_style two_captions [0%nat; 0%nat] "bold") !! 1%nat = Some sub'
       /\ start_time sub' = 1%Q /\ end_time sub' = 2%Q.
Proof.
  assert (Hsub : two_captions !! 1%nat
                 = Some {| start_time := 1; end_time := 2; text := "two" |})
    by reflexivity.
  split; [exact Hsub|].
  destruct (styling_keeps_timing two_captions [0%nat; 0%nat] "bold" 1%nat _ Hsub)
    as (_ & sub' & Hlookup & Hstart & Hend & _).
  exists sub'. split; [exact Hlookup|]. split; [exact Hstart|exact Hend].
Defined.

(** X13: Styling works in place.  For [bold], [italic] and [modern] the text
    of a caption is wrapped in the tags of the style once for every time
    the list names that caption, so once when the list names it once; the
    captions the caller still holds are the ones that were changed.  For
    [default] and for any other word the texts are left alone and no error
    is raised. *)
Theorem styling_wraps_in_place (heap : gmap nat subtitle) (refs : list nat)
    (font_style : string) (ref : nat) (sub : subtitle) :
  heap !! ref = Some sub ->
  exists sub',
    fst (apply_font_style heap refs font_style) !! ref = Some sub'
    /\ text sub'
       = match style_tags font_style with
         | Some (opening, closing) =>
             repeated (count_occ Nat.eq_dec refs ref) (wrapped opening closing)
                      (text sub)
         | None => text sub
         end
    /\ (List.NoDup refs -> In ref refs ->
        forall opening closing,
          style_tags font_style = Some (opening, closing) ->
          text sub' = opening +:+ text sub +:+ closing).
Proof.
  intros Hsub. rewrite styled_heap.
  destruct (style_tags font_style) as [[opening closing]|].
  - rewrite style_each_lookup, Hsub. simpl. eexists. split; [reflexivity|].
    split; [reflexivity|].
    intros Hnodup Hin o c Htags. injection Htags as <- <-.
    simpl. rewrite (proj1 (NoDup_count_occ' Nat.eq_dec refs) Hnodup ref Hin).
    reflexivity.
  - exists sub. split; [exact Hsub|]. split; [reflexivity|].
    intros _ _ o c Htags. discriminate Htags.
Qed.

Lemma styling_wraps_in_place_witness :
  two_captions !! 0%nat
    = Some {| start_time := 0; end_time := 1; text := "one" |}
  /\ exists sub',
       fst (apply_font_style two_captions [0%nat; 0%nat] "bold") !! 0%nat = Some sub'
       /\ text sub' = "<b><b>one</b></b>".
Proof.
  assert (Hsub : two_captions !! 0%nat
                 = Some {| start_time := 0; end_time := 1; text := "one" |})
    by reflexivity.
  split; [exact Hsub|].
  destruct (styling_wraps_in_place two_captions [0%nat; 0%nat] "bold" 0%nat _ Hsub)
    as (sub' & Hlookup & Htext & _).
  exists sub'. split; [exact Hlookup|exact Htext].
Defined.

End StylingFacts.

(** ** More about timestamps and the subtitle writers *)

Module TimeFormat.

Import Subtitles Collaborator Vtt Statements MoreStatements Inputs MoreInputs.

Lemma digit_not_space (d : Z) : 0 <= d < 10 -> digit d <> " "%char.
Proof.
  intros Hd.
  assert (Hcases : d = 0 \/ d = 1 \/ d = 2 \/ d = 3 \/ d = 4 \/ d = 5
                   \/ d = 6 \/ d = 7 \/ d = 8 \/ d = 9) by lia.
  repeat (destruct Hcases as [->|Hcases]; [discriminate|]).
  subst. discriminate.
Qed.

Local Opaque digit.

(** The four fields of the timestamp of [seconds]. *)
Lemma timestamp_fields (t : Q) :
  exists h m s ms,
    (0 <= h < 24 /\ 0 <= m < 60 /\ 0 <= s < 60 /\ 0 <= ms < 1000)
    /\ h * 3600 + m * 60 + s = td_seconds (timedelta_of_seconds t)
    /\ format_time t
       = zero_padded 2 h +:+ ":" +:+ zero_padded 2 m +:+ ":"
           +:+ zero_padded 2 s +:+ "," +:+ zero_padded 3 ms
    /\ format_time_vtt t
       = zero_padded 2 h +:+ ":" +:+ zero_padded 2 m +:+ ":"
           +:+ zero_padded 2 s +:+ "." +:+ zero_padded 3 ms.
Proof.
  unfold format_time, format_time_vtt, timedelta_of_seconds.
  cbn [td_seconds td_microseconds].
  set (us := round_half_even (t * 1000000)%Q).
  set (secs := us mod 86400000000 / 1000000).
  pose proof (Z.mod_pos_bound us 86400000000 ltac:(lia)) as Hday.
  assert (Hsecs : 0 <= secs < 86400).
  { unfold secs. split; [apply Z.div_pos; lia|apply Z.div_lt_upper_bound; lia]. }
  pose proof (Z.mod_pos_bound secs 3600 ltac:(lia)) as Hrem.
  pose proof (Z.mod_pos_bound (secs mod 3600) 60 ltac:(lia)) as Hsec.
  pose proof (Z.mod_pos_bound us 1000000 ltac:(lia)) as Hmicro.
  exists (secs / 3600), (secs mod 3600 / 60), ((secs mod 3600) mod 60),
         (us mod 1000000 / 1000).
  split; [|split; [|split; reflexivity]].
  - repeat split; try lia;
      first [apply Z.div_pos; lia | apply Z.div_lt_upper_bound; lia].
  - pose proof (Z_div_mod_eq_full secs 3600).
    pose proof (Z_div_mod_eq_full (secs mod 3600) 60). lia.
Qed.








Lemma append_empty_r (s : string) : s +:+ EmptyString = s.
Proof.
  induction s as [|c s IH]; [reflexivity|].
  change (String c (s +:+ EmptyString) = String c s). now rewrite IH.
Qed.

Lemma snoc_then_append (l : list ascii) (c : ascii) (b : string) :
  string_of_list_ascii (l ++ [c]) +:+ b = string_of_list_ascii l +:+ String c b.
Proof.
  induction l as [|d l IH]; [reflexivity|].
  change (String d (string_of_list_ascii (l ++ [c]) +:+ b)
          = String d (string_of_list_ascii l +:+ String c b)).
  now rewrite IH.
Qed.

Lemma arrow_not_prefix (c : ascii) (s : string) :
  c <> " "%char -> String.prefix " --> " (String c s) = false.
Proof.
  intros Hc.
  change (String.prefix " --> " (String c s))
    with (if ascii_dec " " c then String.prefix "--> " s else false).
  destruct (ascii_dec " " c) as [<-|_]; [contradiction|reflexivity].
Qed.

Lemma split_plain (b : string) :
  forall cur,
    no_space b ->
    split_from " --> " b 0 cur = [string_of_list_ascii (rev cur) +:+ b].
Proof.
  induction b as [|c b IH]; intros cur Hb.
  - simpl. now rewrite append_empty_r.
  - destruct Hb as [Hc Hb].
    cbn [split_from]. rewrite (arrow_not_prefix c b Hc).
    rewrite (IH (c :: cur) Hb). simpl rev. now rewrite snoc_then_append.
Qed.

Lemma split_at_arrow (a b : string) :
  forall cur,
    no_space a ->
    split_from " --> " (a +:+ " --> " +:+ b) 0 cur
    = (string_of_list_ascii (rev cur) +:+ a) :: split_from " --> " b 0 [].
Proof.
  induction a as [|c a IH]; intros cur Ha.
  - rewrite append_empty_r.
    change (EmptyString +:+ " --> " +:+ b)
      with (String " " (String "-" (String "-" (String ">" (String " " b))))).
    cbn [split_from].
    assert (Hp : String.prefix " --> "
                   (String " " (String "-" (String "-" (String ">" (String " " b)))))
                 = true).
    { vm_compute. destruct b; reflexivity. }
    rewrite Hp. reflexivity.
  - destruct Ha as [Hc Ha].
    change (String c a +:+ " --> " +:+ b) with (String c (a +:+ " --> " +:+ b)).
    cbn [split_from]. rewrite (arrow_not_prefix c _ Hc).
    rewrite (IH (c :: cur) Ha). simpl rev. now rewrite snoc_then_append.
Qed.

Lemma no_space_app (s t : string) : no_space s -> no_space t -> no_space (s +:+ t).
Proof.
  induction s as [|c s IH]; [intros _ Ht; exact Ht|].
  intros [Hc Hs] Ht.
  change (no_space (String c (s +:+ t))). split; [exact Hc|now apply IH].
Qed.

Lemma zero_padded_2_no_space (n : Z) : 0 <= n < 100 -> no_space (zero_padded 2 n).
Proof.
  intros Hn. rewrite SrtTime.zero_padded_2 by exact Hn.
  repeat split; apply digit_not_space;
    first [apply Z.mod_pos_bound; lia
          | split; [apply Z.div_pos; lia | apply Z.div_lt_upper_bound; lia]].
Qed.

Lemma zero_padded_3_no_space (n : Z) : 0 <= n < 1000 -> no_space (zero_padded 3 n).
Proof.
  intros Hn. rewrite SrtTime.zero_padded_3 by exact Hn.
  repeat split; apply digit_not_space;
    first [apply Z.mod_pos_bound; lia
          | split; [apply Z.div_pos; lia | apply Z.div_lt_upper_bound; lia]].
Qed.

Lemma format_time_no_space (t : Q) : no_space (format_time t).
Proof.
  destruct (timestamp_fields t)
    as (h & m & s & ms & (Hh & Hm & Hs & Hms) & _ & -> & _).
  assert (Hmark : forall c : ascii, c <> " "%char -> no_space (String c EmptyString))
    by (intros c Hc; split; [exact Hc|exact I]).
  apply no_space_app; [apply zero_padded_2_no_space; lia|].
  apply no_space_app; [apply Hmark; discriminate|].
  apply no_space_app; [apply zero_padded_2_no_space; lia|].
  apply no_space_app; [apply Hmark; discriminate|].
  apply no_space_app; [apply zero_padded_2_no_space; lia|].
  apply no_space_app; [apply Hmark; discriminate|].
  apply zero_padded_3_no_space; lia.
Qed.

Lemma time_line_splits (sub : subtitle) :
  split (srt_time_line sub) " --> "
  = [format_time (start_time sub); format_time (end_time sub)].
Proof.
  unfold split, srt_time_line.
  rewrite split_at_arrow by apply format_time_no_space.
  rewrite split_plain by apply format_time_no_space.
  reflexivity.
Qed.

(** X16: Within the first day the time-range line of a caption reads back:
    splitting it at the arrow and reading the two timestamps gives times
    less than a millisecond away from the start and the end of the
    caption. *)
Theorem time_lines_read_back (sub : subtitle) :
  (0 <= start_time sub)%Q -> (start_time sub < 86400 - (1 # 2000000))%Q ->
  (0 <= end_time sub)%Q -> (end_time sub < 86400 - (1 # 2000000))%Q ->
  exists s e,
    parse_time_line (srt_time_line sub) = Some (s, e)
    /\ (Qabs (s - start_time sub) < 1 # 1000)%Q
    /\ (Qabs (e - end_time sub) < 1 # 1000)%Q.
Proof.
  intros Hs0 Hs1 He0 He1.
  destruct (SrtTime.srt_roundtrip_within_a_day _ Hs0 Hs1) as (s & Hs & Hsnear).
  destruct (SrtTime.srt_roundtrip_within_a_day _ He0 He1) as (e & He & Henear).
  exists s, e. unfold parse_time_line.
  rewrite time_line_splits, Hs, He. auto.
Qed.

Lemma append_assoc_string (x y z : string) : (x +:+ y) +:+ z = x +:+ (y +:+ z).
Proof.
  induction x as [|c x IH]; [reflexivity|].
  change (String c ((x +:+ y) +:+ z) = String c (x +:+ (y +:+ z))).
  now rewrite IH.
Qed.

(** The entries of [front ++ back] are those of [front] followed by those
    of [back], numbered on from where [front] stopped. *)
Lemma srt_entries_app (front back : list subtitle) :
  forall i,
    srt_entries i (front ++ back)
    = srt_entries i front +:+ srt_entries (i + Z.of_nat (length front)) back.
Proof.
  induction front as [|sub front IH]; intros i.
  - simpl. now rewrite Z.add_0_r.
  - cbn [srt_entries app length]. rewrite IH.
    replace (i + 1 + Z.of_nat (length front)) with (i + Z.of_nat (S (length front))) by lia.
    now rewrite !append_assoc_string.
Qed.

Lemma vtt_entries_app (front back : list subtitle) :
  forall i,
    vtt_entries i (front ++ back)
    = vtt_entries i front +:+ vtt_entries (i + Z.of_nat (length front)) back.
Proof.
  induction front as [|sub front IH]; intros i.
  - simpl. now rewrite Z.add_0_r.
  - cbn [vtt_entries app length]. rewrite IH.
    replace (i + 1 + Z.of_nat (length front))
      with (i + Z.of_nat (S (length front))) by lia.
    now rewrite !append_assoc_string.
Qed.

(** X17: Writing is incremental in both formats: the text written for
    [front ++ back] is the text written for [front] followed by the entries
    of [back], numbered on from [1 + len(front)]; entries are numbered from 1
    without a gap. *)
Theorem writers_number_entries_in_sequence (front back : list subtitle) :
  write_srt (front ++ back)
  = write_srt front +:+ srt_entries (1 + Z.of_nat (length front)) back
  /\ write_vtt (front ++ back)
     = write_vtt front +:+ vtt_entries (1 + Z.of_nat (length front)) back.
Proof.
  unfold write_srt, write_vtt. rewrite srt_entries_app, vtt_entries_app.
  split; [reflexivity|]. now rewrite !append_assoc_string.
Qed.

Lemma time_lines_read_back_witness :
  exists s e,
    parse_time_line (srt_time_line early_caption) = Some (s, e)
    /\ (Qabs (s - (3609 + (1 # 3))) < 1 # 1000)%Q
    /\ (Qabs (e - 3611) < 1 # 1000)%Q.
Proof.
  apply (time_lines_read_back early_caption); vm_compute; congruence.
Defined.

End TimeFormat.

(** ** Statements about the emoji overlays *)

Module EmojiFacts.

Import EmojiOverlay.

Lemma next_third (i : nat) :
  ((S i + 2) / 3 = (i + 2) / 3 + (if i mod 3 =? 0 then 1 else 0))%nat.
Proof.
  pose proof (Nat.div_mod_eq i 3) as Hi.
  pose proof (Nat.mod_upper_bound i 3 ltac:(lia)) as Hr.
  set (q := (i / 3)%nat) in *. set (r := (i mod 3)%nat) in *.
  assert (Hcases : r = 0%nat \/ r = 1%nat \/ r = 2%nat) by lia.
  destruct Hcases as [Hr0|[Hr1|Hr2]]; rewrite ?Hr0, ?Hr1, ?Hr2 in *; simpl Nat.eqb; cbv iota.
  - replace (S i + 2)%nat with (0 + (q + 1) * 3)%nat by lia.
    replace (i + 2)%nat with (2 + q * 3)%nat by lia.
    rewrite !Nat.div_add by lia. simpl. lia.
  - replace (S i + 2)%nat with (1 + (q + 1) * 3)%nat by lia.
    replace (i + 2)%nat with (0 + (q + 1) * 3)%nat by lia.
    rewrite !Nat.div_add by lia. simpl. lia.
  - replace (S i + 2)%nat with (2 + (q + 1) * 3)%nat by lia.
    replace (i + 2)%nat with (1 + (q + 1) * 3)%nat by lia.
    rewrite !Nat.div_add by lia. simpl. lia.
Qed.

Lemma clock_step (i : nat) (clock : Q) :
  (clock == time_of_word i)%Q ->
  ((if (i mod 3 =? 0)%nat then clock + 3 / (5 # 2) else clock)
   == time_of_word (S i))%Q.
Proof.
  intros Hclock. unfold time_of_word in *. rewrite next_third.
  destruct (i mod 3 =? 0)%nat.
  - rewrite Nat2Z.inj_add, inject_Z_plus, Hclock.
    change (inject_Z (Z.of_nat 1)) with 1%Q.
    assert (H : (3 / (5 # 2) == 6 # 5)%Q) by reflexivity.
    rewrite H. ring.
  - now rewrite Nat.add_0_r.
Qed.

Lemma visit_all (ws : list string) :
  forall (i : nat) (acc acc' : list overlay) (clock : Q),
    (clock == time_of_word i)%Q ->
    Forall2 same_overlay acc acc' ->
    Forall2 same_overlay
      (fst (fold_left visit_word (enumerate_from i ws) (acc, clock)))
      (acc' ++ overlays_of (enumerate_from i ws)).
Proof.
  induction ws as [|w ws IH]; intros i acc acc' clock Hclock Hacc.
  - simpl. now rewrite app_nil_r.
  - cbn [enumerate_from fold_left overlays_of]. unfold visit_word at 2.
    destruct (first_match keyword_to_emoji (strip_chars punctuation (lower w)))
      as [e|].
    + replace (acc' ++ {| emoji := e; time := time_of_word i; duration := 1; word := w |}
                 :: overlays_of (enumerate_from (S i) ws))
        with ((acc' ++ [{| emoji := e; time := time_of_word i; duration := 1; word := w |}])
                ++ overlays_of (enumerate_from (S i) ws))
        by now rewrite <- app_assoc.
      apply IH; [now apply clock_step|].
      apply Forall2_app; [exact Hacc|].
      constructor; [|constructor]. repeat split; simpl; auto.
    + apply IH; [now apply clock_step|exact Hacc].
Qed.

(** X18: The overlays are those of the words that hold a keyword, in the order
    of the words: the word of index [i] gets the emoji of the first keyword
    of the table found in it once lowered and stripped of punctuation, and
    it gets it at [1.2 * ceil(i / 3)] seconds, for one second: the clock moves
    on by 1.2 s after the words of index 0, 3, 6 and so on, and only
    then. *)
Theorem emoji_times_follow_word_index (transcript_text : string) :
  Forall2 same_overlay
    (map_words_to_emojis transcript_text)
    (overlays_of (enumerate_from 0 (split_whitespace transcript_text))).
Proof.
  unfold map_words_to_emojis.
  apply (visit_all (split_whitespace transcript_text) 0 [] [] 0%Q); [|constructor].
  reflexivity.
Qed.

Lemma time_of_word_mono (i j : nat) :
  (i <= j)%nat -> (time_of_word i <= time_of_word j)%Q.
Proof.
  intros Hij. unfold time_of_word.
  apply Qmult_le_l; [reflexivity|].
  rewrite <- Zle_Qle. apply Nat2Z.inj_le.
  apply Nat.Div0.div_le_mono. lia.
Qed.

Lemma overlays_of_chronological (ws : list string) :
  forall i,
    Forall (fun o => (time_of_word i <= time o)%Q /\ duration o = 1%Q /\ In (word o) ws)
           (overlays_of (enumerate_from i ws))
    /\ StronglySorted (fun a b => (time a <= time b)%Q)
                      (overlays_of (enumerate_from i ws))
    /\ (length (overlays_of (enumerate_from i ws)) <= length ws)%nat.
Proof.
  induction ws as [|w ws IH]; intros i; cbn [enumerate_from overlays_of].
  - repeat split; constructor.
  - destruct (IH (S i)) as (Hall & Hsorted & Hlen).
    assert (Hall' : Forall (fun o => (time_of_word i <= time o)%Q /\ duration o = 1%Q
                                     /\ In (word o) (w :: ws))
                           (overlays_of (enumerate_from (S i) ws))).
    { eapply List.Forall_impl; [|exact Hall]. intros o (Ht & Hd & Hw).
      split; [|split; [exact Hd|now right]].
      eapply Qle_trans; [|exact Ht]. apply time_of_word_mono. lia. }
    destruct (first_match keyword_to_emoji (strip_chars punctuation (lower w))).
    + split; [|split].
      * constructor; [|exact Hall'].
        simpl. split; [apply Qle_refl|]. split; [reflexivity|now left].
      * constructor; [exact Hsorted|].
        eapply List.Forall_impl; [|exact Hall']. intros o (Ht & _). exact Ht.
      * simpl. lia.
    + split; [exact Hall'|]. split; [exact Hsorted|]. simpl. lia.
Qed.

Lemma same_overlay_sorted (l l' : list overlay) :
  Forall2 same_overlay l l' ->
  StronglySorted (fun a b => (time a <= time b)%Q) l' ->
  StronglySorted (fun a b => (time a <= time b)%Q) l.
Proof.
  induction 1 as [|a a' l l' Ha Hl IH]; intros Hsorted; [constructor|].
  apply StronglySorted_inv in Hsorted as [Hrest Hhead].
  constructor; [now apply IH|].
  clear IH Hrest. induction Hl as [|b b' l l' Hb Hl IH]; [constructor|].
  apply Forall_cons_1 in Hhead as [Hab Hhead].
  constructor; [|now apply IH].
  destruct Ha as (_ & Hta & _), Hb as (_ & Htb & _). now rewrite Hta, Htb.
Qed.

(** X19: The overlays come in chronological order, there are no more of them
    than words, and each lasts one second and carries a word of the
    transcript as it was written. *)
Theorem emoji_overlays_are_chronological (transcript_text : string) :
  let overlays := map_words_to_emojis transcript_text in
  StronglySorted (fun a b => (time a <= time b)%Q) overlays
  /\ (length overlays <= length (split_whitespace transcript_text))%nat
  /\ Forall (fun o => duration o = 1%Q
                      /\ In (word o) (split_whitespace transcript_text)) overlays.
Proof.
  intros overlays.
  pose proof (visit_all (split_whitespace transcript_text) 0 [] [] 0%Q
                ltac:(reflexivity) ltac:(constructor)) as Hsame.
  simpl app in Hsame. fold (map_words_to_emojis transcript_text) in Hsame.
  fold overlays in Hsame.
  destruct (overlays_of_chronological (split_whitespace transcript_text) 0)
    as (Hall & Hsorted & Hlen).
  split; [now apply (same_overlay_sorted _ _ Hsame)|]. split.
  - now rewrite (Forall2_length _ _ _ Hsame).
  - clear Hsorted Hlen. induction Hsame as [|a a' l l' Ha Hl IH]; [constructor|].
    apply Forall_cons_1 in Hall as [(_ & Hd & Hw) Hall].
    destruct Ha as (_ & _ & Hda & Hwa).
    constructor; [|now apply IH]. rewrite Hda, Hwa. auto.
Qed.

End EmojiFacts.

(** ** Statements about the stored files *)

Module FileStorageFacts.

Import FileStorage MoreStatements MoreInputs.

Lemma join_absolute (dir filename : string) :
  String.prefix "/" filename = true -> join dir filename = filename.
Proof. intros H. unfold join. now rewrite H. Qed.

Lemma join_uploads (filename : string) :
  String.prefix "/" filename = false -> join "uploads" filename = "uploads/" +:+ filename.
Proof. intros H. unfold join. rewrite H. reflexivity. Qed.

Lemma join_outputs (filename : string) :
  String.prefix "/" filename = false -> join "outputs" filename = "outputs/" +:+ filename.
Proof. intros H. unfold join. rewrite H. reflexivity. Qed.

(** X20: Looking a file up by name.  A name that starts with a slash is taken
    as it stands: the path returned is that name itself, outside both
    storage directories, whenever such a file exists.  For any other name
    the path returned is an existing file, the one inside [uploads/] when
    there is one and otherwise the one inside [outputs/]; none is returned
    only when neither exists. *)
Theorem stored_file_lookup (exists_ : string -> bool) (filename : string) :
  (String.prefix "/" filename = true ->
   get_file_path exists_ filename = if exists_ filename then Some filename else None)
  /\ (String.prefix "/" filename = false ->
      match get_file_path exists_ filename with
      | Some p =>
          exists_ p = true
          /\ (p = "uploads/" +:+ filename
              \/ (p = "outputs/" +:+ filename
                  /\ exists_ ("uploads/" +:+ filename) = false))
      | None =>
          exists_ ("uploads/" +:+ filename) = false
          /\ exists_ ("outputs/" +:+ filename) = false
      end).
Proof.
  split; intros Hslash; unfold get_file_path.
  - rewrite !join_absolute by exact Hslash. destruct (exists_ filename); reflexivity.
  - rewrite join_uploads, join_outputs by exact Hslash.
    destruct (exists_ ("uploads/" +:+ filename)) eqn:Hup; [auto|].
    destruct (exists_ ("outputs/" +:+ filename)) eqn:Hout; auto.
Qed.

Section Listing.
Variable listdir : string -> list string.
Variable getsize : string -> Z.
Variable getmtime : string -> Q.

Lemma add_file_fold (file_type : option string) (dir : string) (names : list string) :
  forall files,
    fold_left (add_file getsize getmtime file_type dir) names files
    = files ++ map (info_of getsize getmtime dir) (List.filter (wanted file_type) names).
Proof.
  induction names as [|n names IH]; intros files; simpl.
  - now rewrite app_nil_r.
  - rewrite IH. unfold add_file at 1, wanted at 2.
    destruct file_type as [t|]; simpl.
    + destruct (String.eqb t ""); simpl; [now rewrite <- app_assoc|].
      destruct (endswith n ("." +:+ t)); simpl; [now rewrite <- app_assoc|reflexivity].
    + now rewrite <- app_assoc.
Qed.

Lemma insert_newest_perm (x : file_info) (sorted : list file_info) :
  Permutation (insert_newest x sorted) (x :: sorted).
Proof.
  induction sorted as [|y rest IH]; simpl; [reflexivity|].
  destruct (Qle_bool (modified y) (modified x)); [reflexivity|].
  rewrite IH. apply perm_swap.
Qed.

Lemma sort_newest_first_perm (files : list file_info) :
  Permutation (sort_newest_first files) files.
Proof.
  induction files as [|x files IH]; simpl; [reflexivity|].
  rewrite insert_newest_perm. now constructor.
Qed.

Lemma insert_newest_sorted (x : file_info) (sorted : list file_info) :
  StronglySorted not_older sorted -> StronglySorted not_older (insert_newest x sorted).
Proof.
  induction sorted as [|y rest IH]; intros Hsorted; simpl.
  - constructor; constructor.
  - destruct (Qle_bool (modified y) (modified x)) eqn:E.
    + apply Qle_bool_iff in E. constructor; [exact Hsorted|].
      apply StronglySorted_inv in Hsorted as [_ Hy].
      constructor; [exact E|].
      eapply List.Forall_impl; [|exact Hy]. unfold not_older. intros z Hz.
      now apply Qle_trans with (y := modified y).
    + apply StronglySorted_inv in Hsorted as [Hrest Hy].
      constructor; [now apply IH|].
      assert (Hxy : not_older y x).
      { unfold not_older. apply Qlt_le_weak, Qnot_le_lt. intros Hle.
        apply Qle_bool_iff in Hle. congruence. }
      apply List.Forall_forall. intros z Hz.
      apply (Permutation_in _ (insert_newest_perm x rest)) in Hz.
      destruct Hz as [<-|Hz]; [exact Hxy|].
      now apply (proj1 (List.Forall_forall _ _) Hy).
Qed.

Lemma sort_newest_first_sorted (files : list file_info) :
  StronglySorted not_older (sort_newest_first files).
Proof.
  induction files as [|x files IH]; simpl; [constructor|].
  now apply insert_newest_sorted.
Qed.

(** X21: The listing holds one entry for every file of [uploads] and of
    [outputs] that the extension filter lets through, no other entry, and
    is ordered by modification time, newest first.  No extension, or an
    empty one, lets every file through. *)
Theorem listing_is_complete_and_newest_first (file_type : option string) :
  Permutation
    (list_files listdir getsize getmtime file_type)
    (map (info_of getsize getmtime "uploads")
         (List.filter (wanted file_type) (listdir "uploads"))
     ++ map (info_of getsize getmtime "outputs")
            (List.filter (wanted file_type) (listdir "outputs")))
  /\ StronglySorted not_older (list_files listdir getsize getmtime file_type).
Proof.
  unfold list_files. split; [|apply sort_newest_first_sorted].
  rewrite sort_newest_first_perm, !add_file_fold. reflexivity.
Qed.
End Listing.

Lemma stored_file_lookup_witness :
  String.prefix "/" "a.mp4" = false
  /\ get_file_path two_copies "a.mp4" = Some "uploads/a.mp4".
Proof.
  assert (Hrelative : String.prefix "/" "a.mp4" = false) by reflexivity.
  split; [exact Hrelative|].
  destruct (stored_file_lookup two_copies "a.mp4") as [_ Hlookup].
  specialize (Hlookup Hrelative).
  destruct (get_file_path two_copies "a.mp4") as [p|] eqn:Hp.
  - destruct Hlookup as [_ [->|[_ Hshadow]]]; [reflexivity|discriminate Hshadow].
  - destruct Hlookup as [Hup _]. discriminate Hup.
Defined.

End FileStorageFacts.
